(** * Transcript-to-slide synthesis engine: a shallow embedding

    The development follows [process_pipeline.py] (and its siblings under
    [pipeline/]).  Python text is modelled by [string]: sequences of 8-bit
    characters read as the code points 0..255.  [clean_text], which names
    code points above 255, is modelled on sequences of code points of any
    size.  Times are floats that the code only stores and compares; they
    are modelled by rationals. *)

From Stdlib Require Import List Bool Arith ZArith Lia.
From Stdlib Require Import Ascii String QArith Sorted DecimalString.
Import ListNotations.

Open Scope string_scope.
Open Scope Z_scope.

(* ------------------------------------------------------------------ *)
(** ** Python string primitives *)

Module PyStr.

(** [str.isspace] on one character, which is also the class used by
    [str.split()], [str.strip()] and the regular-expression class [\s]. *)
Definition is_space (c : ascii) : bool :=
  let n := nat_of_ascii c in
  ((9 <=? n) && (n <=? 13) || (28 <=? n) && (n <=? 32)
   || (n =? 133) || (n =? 160))%nat.

(** [str.lower] on one character of the range 0..255. *)
Definition lower_char (c : ascii) : ascii :=
  let n := nat_of_ascii c in
  if ((65 <=? n) && (n <=? 90)
      || (192 <=? n) && (n <=? 222) && negb (n =? 215))%nat
  then ascii_of_nat (n + 32) else c.

Fixpoint lower (s : string) : string :=
  match s with
  | EmptyString => EmptyString
  | String c r => String (lower_char c) (lower r)
  end.

Definition is_empty (s : string) : bool :=
  match s with EmptyString => true | _ => false end.

(** [" ".join(ws)] *)
Definition join (ws : list string) : string := String.concat " " ws.

Definition flush (w : string) : list string :=
  if is_empty w then [] else [w].

(** [s.split()]: [w] is the word being read. *)
Fixpoint split_go (w s : string) : list string :=
  match s with
  | EmptyString => flush w
  | String c r =>
      if is_space c then flush w ++ split_go EmptyString r
      else split_go (w ++ String c EmptyString) r
  end.

Definition split (s : string) : list string := split_go EmptyString s.

(** [s.lstrip(chars)], [s.rstrip(chars)], [s.strip(chars)] with the set of
    characters given as a predicate. *)
Fixpoint lstrip (p : ascii -> bool) (s : string) : string :=
  match s with
  | EmptyString => EmptyString
  | String c r => if p c then lstrip p r else s
  end.

Fixpoint rstrip (p : ascii -> bool) (s : string) : string :=
  match s with
  | EmptyString => EmptyString
  | String c r =>
      let r' := rstrip p r in
      if is_empty r' && p c then EmptyString else String c r'
  end.

Definition strip_with (p : ascii -> bool) (s : string) : string :=
  rstrip p (lstrip p s).

(** [s.strip()] *)
Definition strip (s : string) : string := strip_with is_space s.

(** [s.startswith(p)] *)
Definition startswith (s p : string) : bool := String.prefix p s.

(** [needle in hay] *)
Fixpoint contains (needle hay : string) : bool :=
  String.prefix needle hay
  || match hay with
     | EmptyString => false
     | String _ r => contains needle r
     end.

(** [s.find(c)] and [s.rfind(c)] for a one-character pattern; -1 when the
    character does not occur. *)
Fixpoint find_char (c : ascii) (s : string) : Z :=
  match s with
  | EmptyString => -1
  | String d r =>
      if Ascii.eqb c d then 0
      else let k := find_char c r in if k <? 0 then -1 else k + 1
  end.

Fixpoint rfind_char (c : ascii) (s : string) : Z :=
  match s with
  | EmptyString => -1
  | String d r =>
      let k := rfind_char c r in
      if 0 <=? k then k + 1 else if Ascii.eqb c d then 0 else -1
  end.

(** [s[a:b]] for [0 <= a] and [0 <= b]. *)
Definition slice (s : string) (a b : Z) : string :=
  String.substring (Z.to_nat a) (Z.to_nat (b - a)) s.

(** [s.replace(old, "")] for a non-empty [old]: occurrences are removed
    from left to right without overlap; [skip] counts the characters of the
    occurrence being removed that are still ahead. *)
Fixpoint remove_go (old : string) (skip : nat) (s : string) : string :=
  match s with
  | EmptyString => EmptyString
  | String c r =>
      match skip with
      | S k => remove_go old k r
      | O => if String.prefix old s
             then remove_go old (String.length old - 1) r
             else String c (remove_go old O r)
      end
  end.

Definition remove_all (old s : string) : string := remove_go old O s.

(** Slice bound of a sequence of length [len], as Python clamps it. *)
Definition slice_bound (len i : Z) : Z :=
  if i <? 0 then Z.max 0 (i + len) else Z.min i len.

(** [l[i:j]] on a list, negative bounds included. *)
Definition list_slice {A} (l : list A) (i j : Z) : list A :=
  let len := Z.of_nat (List.length l) in
  let a := slice_bound len i in
  let b := slice_bound len j in
  firstn (Z.to_nat (b - a)) (skipn (Z.to_nat a) l).

End PyStr.

(* ------------------------------------------------------------------ *)
(** ** Chunker: [chunk_text_by_words]

    The same function appears in [process_pipeline.py] and in
    [pipeline/utils.py]. *)

Module Chunker.
Import PyStr.

Definition len (words : list string) : Z := Z.of_nat (List.length words).

(** One turn of [while i < len(words)]: [None] when the test fails. *)
Definition chunk_step (words : list string) (target : Z)
           (st : Z * list string) : option (Z * list string) :=
  let '(i, chunks) := st in
  if i <? len words then
    let j := Z.min (len words) (i + target) in
    Some (j, (chunks ++ [join (list_slice words i j)])%list)
  else None.

(** The loop, with [fuel] bounding the number of turns: [None] when the
    fuel is used up before the test fails. *)
Fixpoint chunk_loop (fuel : nat) (words : list string) (target : Z)
         (st : Z * list string) : option (list string) :=
  match chunk_step words target st with
  | None => Some (snd st)
  | Some st' =>
      match fuel with
      | O => None
      | S f => chunk_loop f words target st'
      end
  end.

Definition chunk_text_by_words (fuel : nat) (text : string) (target : Z)
  : option (list string) :=
  chunk_loop fuel (split text) target (0, []).

End Chunker.

(* ------------------------------------------------------------------ *)
(** ** Timestamp aligner: [find_start_time_for_chunk], [find_closest_frame] *)

Module Aligner.
Import PyStr.

(** A caption as [parse_vtt_timestamps] returns it:
    [{"start": seconds, "text": text}]. *)
Record CaptionSegment := mkCaption { start : Q; text : string }.

(** A [pathlib.Path]; such an object is true in a boolean context whatever
    its text. *)
Record Path := mkPath { path_str : string }.

(** A frame as [extract_frames] returns it: [{"path": Path, "time": float}]. *)
Record FrameSample := mkFrame { path : Path; time : Q }.

(** [" ".join(chunk_text.split()[:5]).lower()] *)
Definition first_words (chunk_text : string) : string :=
  lower (join (firstn 5 (split chunk_text))).

(** [for seg in segments: if first_words in seg["text"].lower(): return seg["start"]] *)
Fixpoint scan_segments (fw : string) (segments : list CaptionSegment)
  : option Q :=
  match segments with
  | [] => None
  | seg :: rest =>
      if contains fw (lower (text seg)) then Some (start seg)
      else scan_segments fw rest
  end.

Definition find_start_time_for_chunk (chunk_text : string)
           (segments : list CaptionSegment) : Q :=
  match scan_segments (first_words chunk_text) segments with
  | Some t => t
  | None =>
      match segments with
      | seg0 :: _ => start seg0
      | [] => 0%Q
      end
  end.

(** The [for f in frames] loop with its [break]; [closest] is the variable
    of the same name. *)
Fixpoint frame_loop (target_time : Q) (frames : list FrameSample)
         (closest : option Path) : option Path :=
  match frames with
  | [] => closest
  | f :: rest =>
      if Qle_bool (time f) target_time
      then frame_loop target_time rest (Some (path f))
      else closest
  end.

Definition find_closest_frame (target_time : Q) (frames : list FrameSample)
  : option Path :=
  match frames with
  | [] => None
  | f0 :: _ =>
      match frame_loop target_time frames None with
      | Some p => Some p
      | None => Some (path f0)
      end
  end.

End Aligner.

(* ------------------------------------------------------------------ *)
(** ** Diagram normalizer: [normalize_mermaid] *)

Module Diagrams.
Import PyStr.

Record DiagramSpec := mkDiagram { diagram_type : string; mermaid : string }.

Definition nl : string := String "010"%char EmptyString.

Definition is_backtick (c : ascii) : bool := Ascii.eqb c "`"%char.

(** [mermaid.strip().strip("`").strip()] *)
Definition stripped (mermaid : string) : string :=
  strip (strip_with is_backtick (strip mermaid)).

(** The [if]/[elif] chain on the type [dt] and the stripped text [m]. *)
Definition with_directive (dt m : string) : string :=
  if (dt =? "mindmap")%string && negb (startswith (lower m) "mindmap")
  then "mindmap" ++ nl ++ "  " ++ m
  else if (dt =? "flowchart")%string && negb (contains "flowchart" (lower m))
  then "flowchart TD" ++ nl ++ "  " ++ m
  else if (dt =? "hierarchy")%string && negb (startswith (lower m) "graph")
  then "graph TD" ++ nl ++ "  " ++ m
  else if (dt =? "timeline")%string && negb (contains "timeline" (lower m))
  then "flowchart TD" ++ nl ++ "  " ++ m
  else m.

(** [process_pipeline.normalize_mermaid]: the type is lower-cased first. *)
Definition normalize_mermaid (diagram_type mermaid : string)
  : option DiagramSpec :=
  if is_empty mermaid || is_empty (strip mermaid) then None
  else
    let m := stripped mermaid in
    let dt := lower diagram_type in
    Some (mkDiagram dt (with_directive dt m)).

End Diagrams.

(** [pipeline/diagrams.py]: the same chain on the type as it is given. *)
Module PipelineDiagrams.
Import PyStr Diagrams.

Definition normalize_mermaid (diagram_type mermaid : string)
  : option DiagramSpec :=
  if is_empty mermaid || is_empty (strip mermaid) then None
  else
    let m := stripped mermaid in
    Some (mkDiagram diagram_type (with_directive diagram_type m)).

End PipelineDiagrams.

(* ------------------------------------------------------------------ *)
(** ** Exceptions *)

(** Python exceptions that the modelled code can meet; all of them are
    subclasses of [Exception]. *)
Inductive exn : Type :=
| JSONDecodeError
| NameError
| TypeError
| AttributeError
| RequestException.

(** The result of running a piece of code that may raise. *)
Inductive outcome (A : Type) : Type :=
| Return (a : A)
| Raise (e : exn).
Arguments Return {A} a.
Arguments Raise {A} e.

Definition bind {A B} (o : outcome A) (k : A -> outcome B) : outcome B :=
  match o with
  | Return a => k a
  | Raise e => Raise e
  end.

(** [try: body except Exception: handler] *)
Definition try_except {A} (body : outcome A) (handler : exn -> outcome A)
  : outcome A :=
  match body with
  | Return a => Return a
  | Raise e => handler e
  end.

Notation "x <- c1 ;; c2" := (bind c1 (fun x => c2))
  (at level 61, c1 at next level, right associativity).
Notation "' pat <- c1 ;; c2" := (bind c1 (fun x => match x with pat => c2 end))
  (at level 61, pat pattern, c1 at next level, right associativity).

(* ------------------------------------------------------------------ *)
(** ** [json.loads]

    A model of the decoder of Python's standard library on the texts of the
    alphabet 0..255: the grammar that the decoder accepts and the values it
    builds.  Numbers with a fraction or an exponent are kept as their
    lexeme.  Two things lie outside this model.  An escape [\uXXXX] of a
    code point above 255 has no character in the alphabet; such a text is
    answered like a malformed one.  The limits of the interpreter on the
    digits of an integer literal and on the depth of nesting are not
    modelled: the grammar alone decides.  The statements about the
    extractor either hold whatever the decoder answers or take its answer
    as a premise. *)

Module Json.
Import PyStr.
Local Set Warnings "-register-all".

Inductive value : Type :=
| JNull
| JBool (b : bool)
| JInt (n : Z)
| JFloat (lexeme : string)
| JStr (s : string)
| JArr (items : list value)
| JObj (fields : list (string * value)).

(** The double quote, and a way to write JSON texts readably: every
    apostrophe of [s] stands for a double quote. *)
Definition dq : ascii := "034"%char.

Fixpoint quoted (s : string) : string :=
  match s with
  | EmptyString => EmptyString
  | String c r => String (if Ascii.eqb c "'"%char then dq else c) (quoted r)
  end.

(** [d[k] = v] on a dict kept in insertion order. *)
Fixpoint dict_set (k : string) (v : value) (d : list (string * value))
  : list (string * value) :=
  match d with
  | [] => [(k, v)]
  | (k', v') :: r =>
      if String.eqb k k' then (k', v) :: r else (k', v') :: dict_set k v r
  end.

(** [d.get(k)], [None] standing for a missing key. *)
Fixpoint dict_get (k : string) (d : list (string * value)) : option value :=
  match d with
  | [] => None
  | (k', v) :: r => if String.eqb k k' then Some v else dict_get k r
  end.

Definition is_json_ws (c : ascii) : bool :=
  let n := nat_of_ascii c in
  ((n =? 32) || (n =? 9) || (n =? 10) || (n =? 13))%nat.

Definition skip_ws (s : string) : string := lstrip is_json_ws s.

Definition is_digit (c : ascii) : bool :=
  let n := nat_of_ascii c in ((48 <=? n) && (n <=? 57))%nat.

Definition hex_value (c : ascii) : option nat :=
  let n := nat_of_ascii c in
  if ((48 <=? n) && (n <=? 57))%nat then Some (n - 48)%nat
  else if ((65 <=? n) && (n <=? 70))%nat then Some (n - 55)%nat
  else if ((97 <=? n) && (n <=? 102))%nat then Some (n - 87)%nat
  else None.

(** The character of the escape made of a backslash, the letter u and the
    four hexadecimal digits [a b c d], when their value is at most 00FF. *)
Definition unicode_escape (a b c d : ascii) : option ascii :=
  match hex_value a, hex_value b, hex_value c, hex_value d with
  | Some 0%nat, Some 0%nat, Some x, Some y => Some (ascii_of_nat (16 * x + y))
  | _, _, _, _ => None
  end.

Definition simple_escape (c : ascii) : option ascii :=
  let n := nat_of_ascii c in
  if (n =? 34)%nat then Some dq
  else if (n =? 92)%nat then Some "\"%char
  else if (n =? 47)%nat then Some "/"%char
  else if (n =? 98)%nat then Some "008"%char
  else if (n =? 102)%nat then Some "012"%char
  else if (n =? 110)%nat then Some "010"%char
  else if (n =? 114)%nat then Some "013"%char
  else if (n =? 116)%nat then Some "009"%char
  else None.

Definition cons_char (c : ascii) (r : option (string * string))
  : option (string * string) :=
  match r with
  | Some (body, rest) => Some (String c body, rest)
  | None => None
  end.

(** The rest of [s] after its first character, when that character is [c]. *)
Definition head_is (c : ascii) (s : string) : option string :=
  match s with
  | String d r => if Ascii.eqb c d then Some r else None
  | EmptyString => None
  end.

(** The body of a string literal, read from just after its opening quote:
    the decoded text and what follows the closing quote. *)
Fixpoint scan_string (s : string) : option (string * string) :=
  match s with
  | EmptyString => None
  | String c r =>
      if Ascii.eqb c dq then Some (EmptyString, r)
      else if Ascii.eqb c "\"%char then
        match r with
        | EmptyString => None
        | String e r' =>
            if Ascii.eqb e "u"%char then
              match r' with
              | String h1 (String h2 (String h3 (String h4 r''))) =>
                  match unicode_escape h1 h2 h3 h4 with
                  | Some u => cons_char u (scan_string r'')
                  | None => None
                  end
              | _ => None
              end
            else
              match simple_escape e with
              | Some u => cons_char u (scan_string r')
              | None => None
              end
        end
      else if (nat_of_ascii c <? 32)%nat then None
      else cons_char c (scan_string r)
  end.

(** The longest run of digits at the head of [s], and the rest. *)
Fixpoint span_digits (s : string) : string * string :=
  match s with
  | String c r =>
      if is_digit c then let '(ds, rest) := span_digits r in (String c ds, rest)
      else (EmptyString, s)
  | EmptyString => (EmptyString, EmptyString)
  end.

Fixpoint digits_value (acc : Z) (ds : string) : Z :=
  match ds with
  | EmptyString => acc
  | String c r => digits_value (10 * acc + Z.of_nat (nat_of_ascii c - 48)) r
  end.

(** An optional minus sign, then 0 or a run of digits that does not begin
    with 0: the lexeme and the rest. *)
Definition scan_integer (s : string) : option (string * string) :=
  let '(sign, body) :=
    match head_is "-" s with
    | Some r => ("-", r)
    | None => (EmptyString, s)
    end in
  match head_is "0" body with
  | Some r => Some (sign ++ "0", r)
  | None =>
      match span_digits body with
      | (EmptyString, _) => None
      | (ds, rest) => Some (sign ++ ds, rest)
      end
  end.

(** [(\.\d+)?] *)
Definition scan_fraction (s : string) : string * string :=
  match head_is "." s with
  | Some r =>
      match span_digits r with
      | (EmptyString, _) => (EmptyString, s)
      | (ds, rest) => (String "." ds, rest)
      end
  | None => (EmptyString, s)
  end.

(** [([eE][-+]?\d+)?] *)
Definition scan_exponent (s : string) : string * string :=
  match s with
  | String e r =>
      if Ascii.eqb e "e"%char || Ascii.eqb e "E"%char then
        let '(sign, body) :=
          match head_is "-" r, head_is "+" r with
          | Some r', _ => ("-", r')
          | None, Some r' => ("+", r')
          | None, None => (EmptyString, r)
          end in
        match span_digits body with
        | (EmptyString, _) => (EmptyString, s)
        | (ds, rest) => (String e (sign ++ ds), rest)
        end
      else (EmptyString, s)
  | EmptyString => (EmptyString, s)
  end.

Definition integer_value (lexeme : string) : Z :=
  match head_is "-" lexeme with
  | Some ds => - digits_value 0 ds
  | None => digits_value 0 lexeme
  end.

Definition scan_number (s : string) : option (value * string) :=
  match scan_integer s with
  | None => None
  | Some (int, r1) =>
      let '(frac, r2) := scan_fraction r1 in
      let '(exp, r3) := scan_exponent r2 in
      if is_empty frac && is_empty exp
      then Some (JInt (integer_value int), r3)
      else Some (JFloat (int ++ frac ++ exp), r3)
  end.

(** [s] without the prefix [p], when it begins with it. *)
Fixpoint drop_prefix (p s : string) : option string :=
  match p with
  | EmptyString => Some s
  | String a p' =>
      match s with
      | String b s' => if Ascii.eqb a b then drop_prefix p' s' else None
      | EmptyString => None
      end
  end.

(** The values that are neither strings nor containers, in the order in
    which the scanner tries them. *)
Definition scan_atom (s : string) : option (value * string) :=
  match drop_prefix "null" s with
  | Some r => Some (JNull, r)
  | None =>
  match drop_prefix "true" s with
  | Some r => Some (JBool true, r)
  | None =>
  match drop_prefix "false" s with
  | Some r => Some (JBool false, r)
  | None =>
  match scan_number s with
  | Some res => Some res
  | None =>
  match drop_prefix "NaN" s with
  | Some r => Some (JFloat "NaN", r)
  | None =>
  match drop_prefix "Infinity" s with
  | Some r => Some (JFloat "Infinity", r)
  | None =>
  match drop_prefix "-Infinity" s with
  | Some r => Some (JFloat "-Infinity", r)
  | None => None
  end end end end end end end.

(** The scanner.  [parse_members] starts just after the opening quote of a
    key, [parse_items] at the first character of an item. *)
Fixpoint parse_value (fuel : nat) (s : string) : option (value * string) :=
  match fuel with
  | O => None
  | S f =>
      match s with
      | String c r =>
          if Ascii.eqb c dq then
            match scan_string r with
            | Some (str, rest) => Some (JStr str, rest)
            | None => None
            end
          else if Ascii.eqb c "{"%char then
            match head_is "}" (skip_ws r) with
            | Some r1 => Some (JObj [], r1)
            | None =>
                match head_is dq (skip_ws r) with
                | Some r1 => parse_members f r1 []
                | None => None
                end
            end
          else if Ascii.eqb c "["%char then
            match head_is "]" (skip_ws r) with
            | Some r1 => Some (JArr [], r1)
            | None => parse_items f (skip_ws r) []
            end
          else scan_atom s
      | EmptyString => None
      end
  end
with parse_members (fuel : nat) (s : string) (acc : list (string * value))
     : option (value * string) :=
  match fuel with
  | O => None
  | S f =>
      match scan_string s with
      | None => None
      | Some (key, r) =>
          match head_is ":" (skip_ws r) with
          | None => None
          | Some r1 =>
              match parse_value f (skip_ws r1) with
              | None => None
              | Some (v, r2) =>
                  let acc' := dict_set key v acc in
                  match head_is "}" (skip_ws r2) with
                  | Some r3 => Some (JObj acc', r3)
                  | None =>
                      match head_is "," (skip_ws r2) with
                      | None => None
                      | Some r3 =>
                          match head_is dq (skip_ws r3) with
                          | Some r4 => parse_members f r4 acc'
                          | None => None
                          end
                      end
                  end
              end
          end
      end
  end
with parse_items (fuel : nat) (s : string) (acc : list value)
     : option (value * string) :=
  match fuel with
  | O => None
  | S f =>
      match parse_value f s with
      | None => None
      | Some (v, r) =>
          match head_is "]" (skip_ws r) with
          | Some r1 => Some (JArr (acc ++ [v]), r1)
          | None =>
              match head_is "," (skip_ws r) with
              | Some r1 => parse_items f (skip_ws r1) (acc ++ [v])
              | None => None
              end
          end
      end
  end.

(** [json.loads(s)]: one value, white space around it, nothing else. *)
Definition json_loads (s : string) : outcome value :=
  match parse_value (2 * String.length s + 2) (skip_ws s) with
  | Some (v, rest) =>
      if is_empty (skip_ws rest) then Return v else Raise JSONDecodeError
  | None => Raise JSONDecodeError
  end.

(** The value of the exponent part of a lexeme: the letter e, an optional
    sign and digits; 0 when there is no such part. *)
Definition exponent_value (exp : string) : Z :=
  match exp with
  | String _ r =>
      match head_is "-" r, head_is "+" r with
      | Some ds, _ => - digits_value 0 ds
      | None, Some ds => digits_value 0 ds
      | None, None => digits_value 0 r
      end
  | EmptyString => 0
  end.

(** [float(lexeme) != 0.0].  The lexeme of a number stands for [m * 10^e]
    with [m] the integer written by the digits before the exponent and [e]
    the exponent less the number of digits of the fraction.  [float] rounds
    to the nearest double, ties to even: the result is zero exactly when
    [|m| * 10^e <= 2^-1075], half of the least positive double.  [NaN] and
    the infinities are not zero. *)
Definition float_nonzero (lexeme : string) : bool :=
  match scan_integer lexeme with
  | None => true
  | Some (int, r1) =>
      let '(frac, r2) := scan_fraction r1 in
      let '(exp, _) := scan_exponent r2 in
      let int_digits :=
        match head_is "-" int with Some ds => ds | None => int end in
      let frac_digits :=
        match frac with String _ ds => ds | EmptyString => EmptyString end in
      let m := digits_value 0 (int_digits ++ frac_digits) in
      let e := exponent_value exp - Z.of_nat (String.length frac_digits) in
      negb (m =? 0) && ((0 <=? e) || (10 ^ (- e) <? m * 2 ^ 1075))
  end.

(** The truth value of a decoded value ([if v:]): [None], [False], a zero,
    and an empty string, list or dict are false. *)
Definition truthy (v : value) : bool :=
  match v with
  | JNull => false
  | JBool b => b
  | JInt n => negb (n =? 0)
  | JFloat lexeme => float_nonzero lexeme
  | JStr s => negb (is_empty s)
  | JArr items => match items with [] => false | _ => true end
  | JObj fields => match fields with [] => false | _ => true end
  end.

End Json.

(* ------------------------------------------------------------------ *)
(** ** Response extractor: [safe_parse_json] *)

Module Extractor.
Import PyStr Json.

Definition fence : string := "```".

(** The end of the lazy group [(\{.*?\})] followed by [\s*```]: [s] is read
    from just after the opening brace; the result is the group without that
    brace, ending at the first closing brace after which white space and a
    fence follow. *)
Fixpoint fence_body (s : string) : option string :=
  match s with
  | EmptyString => None
  | String c r =>
      if Ascii.eqb c "}"%char && String.prefix fence (lstrip is_space r)
      then Some (String c EmptyString)
      else match fence_body r with
           | Some g => Some (String c g)
           | None => None
           end
  end.

(** A match of the pattern that begins with the fence just read: [s] is the
    text after that fence.  [(?:json)?], then [\s*], then the group. *)
Definition fence_match_here (s : string) : option string :=
  let s1 := match drop_prefix "json" s with Some r => r | None => s end in
  match lstrip is_space s1 with
  | String "{" r =>
      match fence_body r with
      | Some g => Some (String "{" g)
      | None => None
      end
  | _ => None
  end.

(** [re.search(r"```(?:json)?\s*(\{.*?\})\s*```", s, re.DOTALL)]: group 1
    of the leftmost match. *)
Fixpoint fence_search (s : string) : option string :=
  match s with
  | EmptyString => None
  | String _ r =>
      match
        match drop_prefix fence s with
        | Some after => fence_match_here after
        | None => None
        end
      with
      | Some g => Some g
      | None => fence_search r
      end
  end.

(** Step 1 of the function: what [s] is replaced by when it holds a fence. *)
Definition after_fences (s : string) : string :=
  if contains fence s then
    match fence_search s with
    | Some g => g
    | None => strip (remove_all fence (remove_all "```json" s))
    end
  else s.

Definition is_closer (c : ascii) : bool :=
  Ascii.eqb c "]"%char || Ascii.eqb c "}"%char.

Definition closer_follows (s : string) : bool :=
  match lstrip is_space s with
  | String c _ => is_closer c
  | EmptyString => false
  end.

(** [re.sub(r',\s*([\]}])', r'\1', s)]: a comma after which white space and
    a closing bracket or brace follow is dropped together with that white
    space.  [dropping] is set while such white space is being passed. *)
Fixpoint drop_commas (dropping : bool) (s : string) : string :=
  match s with
  | EmptyString => EmptyString
  | String c r =>
      if dropping then
        if is_space c then drop_commas true r
        else String c (drop_commas false r)
      else if Ascii.eqb c ","%char && closer_follows r
           then drop_commas true r
           else String c (drop_commas false r)
  end.

Definition remove_trailing_commas (s : string) : string :=
  drop_commas false s.

(** [process_pipeline.safe_parse_json]; [None] is Python's [None]. *)
Definition safe_parse_json (s : string) : outcome (option value) :=
  if is_empty s then Return None
  else
    let s := after_fences s in
    let start := find_char "{" s in
    let end_ := rfind_char "}" s in
    if (start =? -1) || (end_ =? -1) || (end_ <=? start) then Return None
    else
      let candidate := slice s start (end_ + 1) in
      try_except
        (v <- json_loads candidate ;; Return (Some v))
        (fun _ =>
           try_except
             (let cleaned := remove_trailing_commas candidate in
              v <- json_loads cleaned ;; Return (Some v))
             (fun _ => Return None)).

End Extractor.

(** [pipeline/llm.py]: the older extractor. *)
Module PipelineLlm.
Import PyStr Json.

Definition safe_parse_json (s : string) : outcome (option value) :=
  try_except
    (v <- json_loads s ;; Return (Some v))
    (fun _ =>
       let start := find_char "{" s in
       let end_ := rfind_char "}" s in
       if negb (start =? -1) && negb (end_ =? -1) then
         try_except
           (v <- json_loads (slice s start (end_ + 1)) ;; Return (Some v))
           (fun _ => Return None)
       else Return None).

End PipelineLlm.

(* ------------------------------------------------------------------ *)
(** ** Generation client and slide assembler *)

Module Pipeline.
Import PyStr Json Extractor Diagrams Aligner.

(** The settings of [Config] that the engine reads. *)
Record Config := mkConfig {
  MODEL_NAME : string;
  FALLBACK_MODELS : list string;
  HAS_COGNEE : bool;
  (** what [get_cognee_context] gives for a query, "" when it fails *)
  cognee_context : string -> string
}.

(** The defaults of the module. *)
Definition default_config : Config :=
  mkConfig "qwen2.5-coder:7b" ["llama3:latest"] false (fun _ => EmptyString).

(** The generation service behind [requests.post]: what the request number
    [n] for a model and a prompt meets.  [None] is an exception raised by
    [requests.post], [raise_for_status] or [iter_lines]; otherwise the
    lines of the streamed body. *)
Definition Service := string -> string -> nat -> option (list string).

(** What a call [call_local_llm(prompt, model_name=model)] returns when [n]
    calls were made before it.  The function is a global of the module,
    looked up at each call, and the tests replace it by a mock. *)
Definition LLM := string -> string -> nat -> outcome (option string).

(** The names bound at the top level of [process_pipeline.py]. *)
Definition module_globals : list string :=
  [ "os"; "sys"; "json"; "time"; "shlex"; "subprocess"; "logging"; "Path";
    "Optional"; "Dict"; "List"; "re"; "slugify"; "requests"; "load_dotenv";
    "cognee"; "asyncio"; "HAS_COGNEE"; "Config"; "init_dirs"; "logger";
    "run_cmd"; "list_local_videos"; "read_text_file"; "write_text_file";
    "clean_text"; "chunk_text_by_words"; "parse_vtt_timestamps";
    "find_start_time_for_chunk"; "extract_frames"; "find_closest_frame";
    "extract_audio"; "transcribe_audio"; "get_cognee_context";
    "build_llm_prompt_for_chunk"; "call_local_llm"; "safe_parse_json";
    "DiagramSpec"; "normalize_mermaid"; "render_slide_section";
    "render_reveal_html"; "slides_output_path"; "process_video_file";
    "main" ].

(** Reading a global name: [NameError] when the module does not bind it. *)
Definition load_global (name : string) : outcome unit :=
  if existsb (String.eqb name) module_globals then Return tt
  else Raise NameError.

(** ["response" in obj] *)
Definition has_response (obj : value) : outcome bool :=
  match obj with
  | JObj d => Return (match dict_get "response" d with
                      | Some _ => true | None => false end)
  | JArr items =>
      Return (existsb (fun v => match v with
                                | JStr t => String.eqb t "response"
                                | _ => false end) items)
  | JStr t => Return (contains "response" t)
  | _ => Raise TypeError
  end.

(** [full_text += obj["response"]], given that the test above held. *)
Definition add_response (full_text : string) (obj : value) : outcome string :=
  match obj with
  | JObj d =>
      match dict_get "response" d with
      | Some (JStr piece) => Return (full_text ++ piece)
      | _ => Raise TypeError
      end
  | _ => Raise TypeError
  end.

(** [for line in r.iter_lines()] *)
Fixpoint read_lines (lines : list string) (full_text : string)
  : outcome string :=
  match lines with
  | [] => Return full_text
  | line :: rest =>
      if is_empty line then read_lines rest full_text
      else
        match json_loads line with
        | Raise _ => read_lines rest full_text
        | Return obj =>
            has <- has_response obj ;;
            if has : bool
            then full_text' <- add_response full_text obj ;;
                 read_lines rest full_text'
            else read_lines rest full_text
        end
  end.

(** [call_local_llm] of [process_pipeline.py].  The rate-limit pause reads
    the bare name [RATE_LIMIT_SECONDS]; the module binds that name only as
    a property of [Config]. *)
Definition call_local_llm (cfg : Config) (service : Service) : LLM :=
  fun prompt model_name n =>
    let model := if is_empty model_name then MODEL_NAME cfg else model_name in
    try_except
      (match service model prompt n with
       | None => Raise RequestException
       | Some lines =>
           full_text <- read_lines lines EmptyString ;;
           let full_text := strip full_text in
           _ <- load_global "RATE_LIMIT_SECONDS" ;;
           Return (if is_empty full_text then None else Some full_text)
       end)
      (fun _ => Return None).

(** [build_llm_prompt_for_chunk]; apostrophes stand for double quotes. *)
Definition decimal (n : nat) : string :=
  NilZero.string_of_uint (Nat.to_uint n).

Definition build_llm_prompt_for_chunk (chunk_text video_id : string)
           (idx total : nat) (graph_context : string) : string :=
  let context_block :=
    if is_empty graph_context then EmptyString
    else nl ++ "Additional Knowledge Graph Context:" ++ nl
            ++ graph_context ++ nl in
  quoted "
You MUST output ONLY a single JSON object.
No explanations.
No commentary.
No Markdown.
No backticks.
No text before or after the JSON.

JSON schema:
{
  'title': 'string',
  'bullets': ['string', ...],
  'notes': 'string',
  'diagram_type': 'mindmap' | 'flowchart' | 'hierarchy' | 'timeline' | 'none',
  'mermaid': 'string'
}

Guidance:
- If conceptual, use 'mindmap'.
- If a process, use 'flowchart' or 'timeline'.
- If layered (gross/subtle/causal/turiya), use 'hierarchy'.
- If no diagram is appropriate, use 'diagram_type': 'none' and 'mermaid': ''.
" ++ context_block ++ nl
  ++ "Transcript chunk (" ++ decimal idx ++ "/" ++ decimal total
  ++ ") for lecture " ++ video_id ++ ":" ++ nl
  ++ quoted "'''" ++ chunk_text ++ quoted "'''" ++ nl.

(** A slide as the loop builds it; the three text fields hold whatever the
    decoded object holds under their keys. *)
Record Slide := mkSlide {
  title : value;
  bullets : value;
  notes : value;
  diagram : option DiagramSpec;
  start_time : Q;
  video_id : string;
  screenshot : option Path
}.

(** [d.get(k, default)] *)
Definition get_default (k : string) (default : value)
           (d : list (string * value)) : value :=
  match dict_get k d with Some v => v | None => default end.

(** [d.get(k) or default] *)
Definition get_or (k : string) (default : value)
           (d : list (string * value)) : value :=
  match dict_get k d with
  | Some v => if truthy v then v else default
  | None => default
  end.

(** [x.lower()] and the call of [normalize_mermaid] on decoded values:
    only a [str] has the methods used. *)
Definition value_lower (v : value) : outcome string :=
  match v with
  | JStr s => Return (lower s)
  | _ => Raise AttributeError
  end.

Definition normalize_mermaid_value (diagram_type : string) (mermaid : value)
  : outcome (option DiagramSpec) :=
  match mermaid with
  | JStr m => Return (normalize_mermaid diagram_type m)
  | _ => if truthy mermaid then Raise AttributeError else Return None
  end.

(** Lines 730 to 752: the slide of a chunk from the text that was kept. *)
Definition build_slide (llm_out chunk vid : string)
           (vtt_segments : list CaptionSegment) (frames : list FrameSample)
  : outcome Slide :=
  parsed <- safe_parse_json llm_out ;;
  match parsed with
  | Some (JObj d) =>
      diagram_type <- value_lower (get_or "diagram_type" (JStr "none") d) ;;
      let mermaid_raw := get_or "mermaid" (JStr EmptyString) d in
      diagram_spec <-
        (if negb (String.eqb diagram_type "none")
         then normalize_mermaid_value diagram_type mermaid_raw
         else Return None) ;;
      let start_time := find_start_time_for_chunk chunk vtt_segments in
      let screenshot := find_closest_frame start_time frames in
      Return (mkSlide (get_default "title" (JStr EmptyString) d)
                      (get_default "bullets" (JArr []) d)
                      (get_default "notes" (JStr EmptyString) d)
                      diagram_spec start_time vid screenshot)
  | _ => Raise AttributeError
  end.

Definition str_truthy (o : option string) : bool :=
  match o with
  | Some s => negb (is_empty s)
  | None => false
  end.

Definition parsed_truthy (o : option value) : bool :=
  match o with
  | Some v => truthy v
  | None => false
  end.

Section Client.
Variable llm : LLM.

(** [for attempt in range(2)] for one model; [trace] lists the models of
    the calls made so far.  The result is the value of [llm_out] when the
    loop is left. *)
Fixpoint attempts (n : nat) (prompt model : string) (trace : list string)
  : outcome (option string * list string) :=
  match n with
  | O => Return (None, trace)
  | S n' =>
      llm_out <- llm prompt model (List.length trace) ;;
      let trace' := (trace ++ [model])%list in
      match llm_out with
      | Some text =>
          if negb (is_empty text) then
            parsed <- safe_parse_json text ;;
            if parsed_truthy parsed then Return (Some text, trace')
            else attempts n' prompt model trace'
          else attempts n' prompt model trace'
      | None => attempts n' prompt model trace'
      end
  end.

(** [for model in models_to_try] *)
Fixpoint try_models (models : list string) (prompt : string)
         (trace : list string) : outcome (option string * list string) :=
  match models with
  | [] => Return (None, trace)
  | model :: rest =>
      '(llm_out, trace') <- attempts 2 prompt model trace ;;
      if str_truthy llm_out then Return (llm_out, trace')
      else try_models rest prompt trace'
  end.

(** One turn of [for idx, chunk in enumerate(chunks, start=1)]: the slide
    of the chunk, or [None] when the turn ends with [continue]. *)
Definition process_chunk (cfg : Config) (vid : string)
           (vtt_segments : list CaptionSegment) (frames : list FrameSample)
           (total idx : nat) (chunk : string) (trace : list string)
  : outcome (option Slide * list string) :=
  let graph_context :=
    if HAS_COGNEE cfg then cognee_context cfg (slice chunk 0 100)
    else EmptyString in
  let prompt :=
    build_llm_prompt_for_chunk chunk vid idx total graph_context in
  let models_to_try := MODEL_NAME cfg :: FALLBACK_MODELS cfg in
  '(llm_out, trace') <- try_models models_to_try prompt trace ;;
  match llm_out with
  | Some text =>
      if negb (is_empty text) then
        slide <- build_slide text chunk vid vtt_segments frames ;;
        Return (Some slide, trace')
      else Return (None, trace')
  | None => Return (None, trace')
  end.

(** The loop over the chunks, [slides] being the list it appends to. *)
Fixpoint process_chunks (cfg : Config) (vid : string)
         (vtt_segments : list CaptionSegment) (frames : list FrameSample)
         (total idx : nat) (chunks : list string)
         (slides : list Slide) (trace : list string)
  : outcome (list Slide * list string) :=
  match chunks with
  | [] => Return (slides, trace)
  | chunk :: rest =>
      '(slide, trace') <-
        process_chunk cfg vid vtt_segments frames total idx chunk trace ;;
      let slides' := match slide with
                     | Some sl => (slides ++ [sl])%list
                     | None => slides
                     end in
      process_chunks cfg vid vtt_segments frames total (S idx) rest
                     slides' trace'
  end.

(** Lines 677 to 757 of [process_video_file]: the deck for the chunks of a
    video, with the calls made. *)
Definition process_video_file (cfg : Config) (vid : string)
           (vtt_segments : list CaptionSegment) (frames : list FrameSample)
           (chunks : list string) : outcome (list Slide * list string) :=
  process_chunks cfg vid vtt_segments frames (List.length chunks) 1 chunks
                 [] [].

End Client.

End Pipeline.

(* ------------------------------------------------------------------ *)
(** ** Text cleaning: [clean_text]

    [clean_text] names three typographic quotes, code points above 255.
    For this function a text is a sequence of code points of any size; the
    same function appears in [process_pipeline.py] and [pipeline/utils.py]. *)

Module Unicode.

Definition text := list N.

(** A text of the alphabet 0..255 as a sequence of code points, and back. *)
Definition of_string (s : string) : text :=
  map N_of_ascii (list_ascii_of_string s).

Definition to_string (t : text) : string :=
  string_of_list_ascii (map ascii_of_N t).

(** [str.isspace] on one code point, the class that [str.split()] splits
    at: the controls 9 to 13 and 28 to 31, the space, U+0085, U+00A0,
    U+1680, U+2000 to U+200A, U+2028, U+2029, U+202F, U+205F, U+3000. *)
Definition is_space (c : N) : bool :=
  ((9 <=? c) && (c <=? 13) || (28 <=? c) && (c <=? 32)
   || (c =? 133) || (c =? 160) || (c =? 5760)
   || (8192 <=? c) && (c <=? 8202) || (c =? 8232) || (c =? 8233)
   || (c =? 8239) || (c =? 8287) || (c =? 12288))%N.

Definition flush (w : text) : list text :=
  match w with [] => [] | _ => [w] end.

(** [s.split()]: [w] is the word being read. *)
Fixpoint split_go (w s : text) : list text :=
  match s with
  | [] => flush w
  | c :: r =>
      if is_space c then (flush w ++ split_go [] r)%list
      else split_go (w ++ [c])%list r
  end.

Definition split (s : text) : list text := split_go [] s.

(** [" ".join(ws)] *)
Fixpoint join (ws : list text) : text :=
  match ws with
  | [] => []
  | w :: r =>
      match r with
      | [] => w
      | _ => (w ++ 32%N :: join r)%list
      end
  end.

(** [s.replace(old, new)] for [old] and [new] of one character each. *)
Definition replace (old new : N) (s : text) : text :=
  map (fun c => if (c =? old)%N then new else c) s.

(** The right single quote U+2019, the left and right double quotes U+201C
    and U+201D, the apostrophe and the double quote. *)
Definition rsquo : N := 8217%N.
Definition ldquo : N := 8220%N.
Definition rdquo : N := 8221%N.
Definition apostrophe : N := 39%N.
Definition quote : N := 34%N.

(** [clean_text]: the three calls of [replace], of [rsquo] by the
    apostrophe and of [ldquo] and [rdquo] by the double quote, then
    [" ".join(s.split())]. *)
Definition clean_text (s : text) : text :=
  let s := replace rdquo quote
             (replace ldquo quote (replace rsquo apostrophe s)) in
  join (split s).

End Unicode.

(* ------------------------------------------------------------------ *)
(** ** Further functions of [process_pipeline.py] *)

Module Utils.
Import PyStr Aligner.

(** [clean_text] on a text of the alphabet 0..255, as the transcripts of
    the rest of the development are. *)
Definition clean_text (s : string) : string :=
  Unicode.to_string (Unicode.clean_text (Unicode.of_string s)).

(** [val.split(",")]: [cur] is the piece being read. *)
Fixpoint split_on (sep : ascii) (cur s : string) : list string :=
  match s with
  | EmptyString => [cur]
  | String c r =>
      if Ascii.eqb c sep then cur :: split_on sep EmptyString r
      else split_on sep (cur ++ String c EmptyString) r
  end.

(** [Config.FALLBACK_MODELS] for the value [val] of the environment
    variable: [[m.strip() for m in val.split(",")]]. *)
Definition FALLBACK_MODELS_of (val : string) : list string :=
  map strip (split_on "," EmptyString val).

(** Lines 256 to 261 of [extract_frames]: the files found, in sorted order
    and numbered from [i], paired with the times read from the output of
    ffmpeg; a file whose number is beyond the last time gets 0.0. *)
Fixpoint extract_frames_from (i : nat) (extracted_files : list Path)
         (timestamps : list Q) : list FrameSample :=
  match extracted_files with
  | [] => []
  | file_path :: rest =>
      let time_val := match nth_error timestamps i with
                      | Some t => t
                      | None => 0%Q
                      end in
      mkFrame file_path time_val :: extract_frames_from (S i) rest timestamps
  end.

Definition extract_frames (extracted_files : list Path) (timestamps : list Q)
  : list FrameSample :=
  extract_frames_from 0 extracted_files timestamps.

End Utils.

(** [call_local_llm] of [pipeline/llm.py]: the module binds
    [RATE_LIMIT_SECONDS], and the reading of a line is wholly inside the
    inner [try]. *)
Module PipelineLlmCall.
Import PyStr Json Pipeline.

(** One line of the stream: the text with the response of the line added,
    or left as it is when anything in the [try] raises. *)
Definition read_line (full_text line : string) : string :=
  match json_loads line with
  | Raise _ => full_text
  | Return obj =>
      match has_response obj with
      | Return true =>
          match add_response full_text obj with
          | Return full_text' => full_text'
          | Raise _ => full_text
          end
      | _ => full_text
      end
  end.

Fixpoint read_lines (lines : list string) (full_text : string) : string :=
  match lines with
  | [] => full_text
  | line :: rest =>
      if is_empty line then read_lines rest full_text
      else read_lines rest (read_line full_text line)
  end.

Definition MODEL_NAME : string := "llama3".

Definition call_local_llm (service : Service) : LLM :=
  fun prompt model n =>
    try_except
      (match service model prompt n with
       | None => Raise RequestException
       | Some lines =>
           let full_text := read_lines lines EmptyString in
           Return (if is_empty (strip full_text) then None
                   else Some (strip full_text))
       end)
      (fun _ => Return None).

End PipelineLlmCall.

(* ================================================================== *)
(** * Vocabulary of the statements *)

Module Spec.
Import PyStr Chunker Aligner Diagrams Json Extractor Pipeline.
Local Open Scope list_scope.

(** A word as [split] produces them: not empty, no white space inside. *)
Fixpoint no_space (s : string) : Prop :=
  match s with
  | EmptyString => True
  | String c r => is_space c = false /\ no_space r
  end.

Definition proper_word (w : string) : Prop :=
  is_empty w = false /\ no_space w.

Definition frames_sorted (frames : list FrameSample) : Prop :=
  Sorted (fun a b => (time a <= time b)%Q) frames.

Definition at_or_before (target : Q) (f : FrameSample) : Prop :=
  (time f <= target)%Q.

Definition frames_0_10_20 : list FrameSample :=
  [ mkFrame (mkPath "f_0001.jpg") 0;
    mkFrame (mkPath "f_0002.jpg") 10;
    mkFrame (mkPath "f_0003.jpg") 20 ].

Definition anchors (fw : string) (seg : CaptionSegment) : bool :=
  contains fw (lower (text seg)).

(** The captions of the example: [(0.0, "hello world"), (5.0, "foo bar")]. *)
Definition captions_example : list CaptionSegment :=
  [ mkCaption 0 "hello world"; mkCaption 5 "foo bar" ].

(** The text of the example that refutes C6 as stated: a timeline in the
    diagram language's own timeline syntax. *)
Definition timeline_text : string :=
  "timeline" ++ nl ++ "  title History".

(** The characters of a text, to say that one occurs in it. *)
Definition occurs (c : ascii) (s : string) : Prop :=
  In c (list_ascii_of_string s).

(** The service of the failing run: every request for the primary model
    fails, every request for the fallback streams one line whose response
    is the text [{"title": "T"}]. *)
Definition fallback_service : Service :=
  fun model _ _ =>
    if String.eqb model "llama3:latest"
    then Some [quoted "{'response': '{\'title\': \'T\'}', 'done': true}"]
    else None.

Definition recognized : list string :=
  ["mindmap"; "flowchart"; "hierarchy"; "timeline"].

(** The text of the example that refutes C7 as stated: a decoded object
    whose diagram type is not one of the five. *)
Definition pie_output : string :=
  quoted "{'title': 'T', 'diagram_type': 'pie', 'mermaid': 'pie title Pets'}".

(** The outcomes of the turns of the loop, one for each chunk in order:
    the slide of the chunk, or [None] for a turn left by [continue]. *)
Fixpoint chunk_outcomes (llm : LLM) (cfg : Config) (vid : string)
         (segs : list CaptionSegment) (frames : list FrameSample)
         (total idx : nat) (chunks : list string) (trace : list string)
  : outcome (list (option Slide) * list string) :=
  match chunks with
  | [] => Return ([], trace)
  | chunk :: rest =>
      '(o, trace') <- process_chunk llm cfg vid segs frames total idx chunk
                                    trace ;;
      '(os, trace'') <- chunk_outcomes llm cfg vid segs frames total (S idx)
                                       rest trace' ;;
      Return (o :: os, trace'')
  end.

(** The slides among the outcomes, in order. *)
Fixpoint emitted (os : list (option Slide)) : list Slide :=
  match os with
  | [] => []
  | Some sl :: r => sl :: emitted r
  | None :: r => emitted r
  end.

(** A generation service that is down: every call returns [None]. *)
Definition llm_down : LLM := fun _ _ _ => Return None.

(** A mock as the tests use it: the same text for every call. *)
Definition llm_mock : LLM :=
  fun _ _ _ =>
    Return (Some (quoted
      "{'title': 'Test Slide', 'bullets': ['Point 1'], 'diagram_type': 'none'}")).



(** The lines that the normalizer can put before a text. *)
Definition directive_lines : list string :=
  [ ""%string;
    ("mindmap" ++ nl ++ "  ")%string;
    ("flowchart TD" ++ nl ++ "  ")%string;
    ("graph TD" ++ nl ++ "  ")%string ].

(** A text made of white space only. *)
Definition blank (s : string) : Prop := lstrip is_space s = ""%string.

(** The calls that the two loops plan: every model twice, in the order of
    the models. *)
Definition attempt_plan (models : list string) : list string :=
  flat_map (fun m => [m; m]) models.

(** What the loop takes for a success: a text that is not empty and that
    the extractor decodes to something true. *)
Definition attempt_succeeds (r : outcome (option string)) (text : string)
  : Prop :=
  r = Return (Some text)
  /\ is_empty text = false
  /\ exists p, safe_parse_json text = Return p /\ parsed_truthy p = true.

(** What the loop takes for a failure: no text, an empty text, or a text
    that the extractor decodes to nothing or to something false. *)
Definition attempt_fails (r : outcome (option string)) : Prop :=
  r = Return None
  \/ exists text,
      r = Return (Some text)
      /\ (is_empty text = true
          \/ exists p, safe_parse_json text = Return p
                       /\ parsed_truthy p = false).

(** The planned calls made one after the other until one succeeds. *)
Fixpoint first_success (llm : LLM) (prompt : string) (plan : list string)
         (trace : list string) : outcome (option string * list string) :=
  match plan with
  | [] => Return (None, trace)
  | model :: rest =>
      llm_out <- llm prompt model (List.length trace) ;;
      let trace' := trace ++ [model] in
      match llm_out with
      | Some text =>
          if negb (is_empty text) then
            parsed <- safe_parse_json text ;;
            if parsed_truthy parsed then Return (Some text, trace')
            else first_success llm prompt rest trace'
          else first_success llm prompt rest trace'
      | None => first_success llm prompt rest trace'
      end
  end.

(** A service whose first two answers fail and whose third is an object. *)
Definition llm_third_call : LLM :=
  fun _ _ n =>
    if (n <? 2)%nat then Return None
    else Return (Some (quoted "{'title': 'T'}")).

(** A mock whose second answer has a number for diagram type. *)
Definition llm_second_bad : LLM :=
  fun _ _ n =>
    if (n =? 0)%nat
    then Return (Some (quoted "{'title': 'First', 'diagram_type': 'none'}"))
    else Return (Some (quoted "{'title': 'Second', 'diagram_type': 5}")).

(** A text that does not begin with a character of the set stripped. *)
Definition clean_head (p : ascii -> bool) (s : string) : Prop :=
  match s with
  | EmptyString => True
  | String c _ => p c = false
  end.

(** A line that the older call adds to the text: it decodes to an object
    whose response is the string [piece]. *)
Definition response_line (line piece : string) : Prop :=
  is_empty line = false
  /\ exists d, json_loads line = Return (JObj d)
               /\ dict_get "response" d = Some (JStr piece).

(** A line that the older call passes over: empty, or not decodable. *)
Definition skipped_line (line : string) : Prop :=
  is_empty line = true \/ exists e, json_loads line = Raise e.

(** A stream of three lines, the second of which is cut short. *)
Definition stream_example : list string :=
  [ quoted "{'response': ' {\'title\':', 'done': false}";
    quoted "{'response': ";
    quoted "{'response': ' \'T\'} ', 'done': true}" ].

(** What a slide is anchored to: the video, a caption start (0 without
    captions) and a frame of the video (none without frames). *)
Definition anchored (vid : string) (segs : list CaptionSegment)
           (frames : list FrameSample) (sl : Slide) : Prop :=
  video_id sl = vid
  /\ (segs = [] -> start_time sl = 0%Q)
  /\ (segs <> [] -> In (start_time sl) (map start segs))
  /\ (frames = [] -> screenshot sl = None)
  /\ (frames <> [] ->
      exists f, In f frames /\ screenshot sl = Some (path f)).

(** A word of a text over all code points: not empty, no white space
    inside. *)
Definition wide_word (w : Unicode.text) : Prop :=
  w <> [] /\ Forall (fun c => Unicode.is_space c = false) w.

(** The typographic quotes that [clean_text] replaces. *)
Definition typographic (c : N) : Prop :=
  c = Unicode.rsquo \/ c = Unicode.ldquo \/ c = Unicode.rdquo.

(** A text after the three calls of [replace] of [clean_text]. *)
Definition straightened (s : Unicode.text) : Unicode.text :=
  Unicode.replace Unicode.rdquo Unicode.quote
    (Unicode.replace Unicode.ldquo Unicode.quote
       (Unicode.replace Unicode.rsquo Unicode.apostrophe s)).

(** The text of the repository's test of [clean_text], with its typographic
    quotes and its run of three spaces, and the text that the test
    expects. *)
Definition clean_text_test_input : Unicode.text :=
  Unicode.of_string "Hello" ++ [Unicode.rsquo] ++ Unicode.of_string "s "
  ++ [Unicode.ldquo] ++ Unicode.of_string "World" ++ [Unicode.rdquo]
  ++ Unicode.of_string "   extra spaces".

Definition clean_text_test_output : Unicode.text :=
  Unicode.of_string "Hello's " ++ [Unicode.quote]
  ++ Unicode.of_string "World" ++ [Unicode.quote]
  ++ Unicode.of_string " extra spaces".

End Spec.

(* ================================================================== *)
(** * Properties *)

(* ------------------------------------------------------------------ *)
(** ** Text primitives *)

Section TextFacts.
Import PyStr Spec.

Lemma append_empty_r (s : string) : s ++ "" = s.
Proof. induction s as [|c s IH]; simpl; [reflexivity | now rewrite IH]. Qed.

Lemma append_assoc (a b c : string) : (a ++ b) ++ c = a ++ (b ++ c).
Proof. induction a as [|x a IH]; simpl; [reflexivity | now rewrite IH]. Qed.

Lemma length_append (a b : string) :
  String.length (a ++ b) = (String.length a + String.length b)%nat.
Proof. induction a as [|x a IH]; simpl; [reflexivity | now rewrite IH]. Qed.

Lemma is_empty_true (s : string) : is_empty s = true <-> s = "".
Proof. destruct s; simpl; split; intro H; congruence. Qed.

Lemma no_space_app (a b : string) :
  no_space a -> no_space b -> no_space (a ++ b).
Proof. induction a as [|x a IH]; simpl; intuition. Qed.

Lemma split_go_nospace (v : string) :
  no_space v -> forall w s, split_go w (v ++ s) = split_go (w ++ v) s.
Proof.
  induction v as [|c v IH]; simpl; intros Hv w s.
  - now rewrite append_empty_r.
  - destruct Hv as [Hc Hv]. rewrite Hc, (IH Hv), append_assoc. reflexivity.
Qed.

Lemma flush_proper (w : string) :
  no_space w -> Forall proper_word (flush w).
Proof.
  intro Hw. unfold flush. destruct (is_empty w) eqn:E; constructor.
  - now split.
  - constructor.
Qed.

Lemma split_go_proper (s : string) :
  forall w, no_space w -> Forall proper_word (split_go w s).
Proof.
  induction s as [|c s IH]; simpl; intros w Hw.
  - now apply flush_proper.
  - destruct (is_space c) eqn:Ec.
    + apply Forall_app. split; [now apply flush_proper | now apply IH].
    + apply IH. apply no_space_app; simpl; auto.
Qed.

Lemma split_proper (s : string) : Forall proper_word (split s).
Proof. apply split_go_proper. exact I. Qed.

Lemma split_join (g : list string) :
  Forall proper_word g -> split (join g) = g.
Proof.
  induction g as [|w g IH]; intro Hg; [reflexivity|].
  inversion Hg as [|? ? [Hne Hns] Hg']; subst.
  specialize (IH Hg'). destruct g as [|w' g].
  - unfold split, join. simpl. rewrite <- (append_empty_r w) at 1.
    rewrite (split_go_nospace w Hns). simpl. unfold flush. now rewrite Hne.
  - change (join (w :: w' :: g)) with (w ++ String " " (join (w' :: g))).
    unfold split. rewrite (split_go_nospace w Hns). simpl.
    unfold flush at 1. rewrite Hne. simpl. f_equal. exact IH.
Qed.

End TextFacts.

(* ------------------------------------------------------------------ *)
(** ** Chunker *)

Section ChunkerFacts.
Import PyStr Chunker Spec.

Variable words : list string.
Variable target : Z.

Let n := List.length words.
Let t := Z.to_nat target.

Lemma firstn_min_length {A} (k : nat) (l : list A) :
  firstn (Nat.min (List.length l) k) l = firstn k l.
Proof.
  destruct (Nat.le_gt_cases k (List.length l)) as [H|H].
  - now rewrite Nat.min_r.
  - rewrite Nat.min_l by lia. rewrite !firstn_all2; auto; lia.
Qed.

Lemma chunk_step_done (i : nat) (acc : list string) :
  (n <= i)%nat -> chunk_step words target (Z.of_nat i, acc) = None.
Proof.
  intro H. unfold chunk_step, len.
  destruct (Z.ltb_spec (Z.of_nat i) (Z.of_nat (List.length words)));
    [subst n; lia | reflexivity].
Qed.

Lemma chunk_step_pos (i : nat) (acc : list string) :
  1 <= target -> (i < n)%nat ->
  chunk_step words target (Z.of_nat i, acc)
  = Some (Z.of_nat (Nat.min n (i + t)),
          (acc ++ [join (firstn t (skipn i words))])%list).
Proof.
  intros Ht Hi. unfold chunk_step, len. fold n.
  destruct (Z.ltb_spec (Z.of_nat i) (Z.of_nat n)); [|lia].
  assert (Hj : Z.min (Z.of_nat n) (Z.of_nat i + target)
               = Z.of_nat (Nat.min n (i + t))) by (subst t; lia).
  rewrite Hj.
  unfold list_slice, slice_bound. fold n.
  destruct (Z.ltb_spec (Z.of_nat i) 0); [lia|].
  destruct (Z.ltb_spec (Z.of_nat (Nat.min n (i + t))) 0); [lia|].
  replace (Z.to_nat (Z.min (Z.of_nat i) (Z.of_nat n))) with i by lia.
  replace (Z.to_nat (Z.min (Z.of_nat (Nat.min n (i + t))) (Z.of_nat n)
                     - Z.min (Z.of_nat i) (Z.of_nat n)))
    with (Nat.min (List.length (skipn i words)) t)
    by (rewrite length_skipn; fold n; lia).
  now rewrite firstn_min_length.
Qed.

(** What the loop computes from index [i] on, for a positive target. *)
Lemma chunk_loop_groups (Ht : 1 <= target) :
  forall fuel i acc,
    (i <= n)%nat -> (n - i <= fuel)%nat ->
    exists gs,
      chunk_loop fuel words target (Z.of_nat i, acc)
      = Some (acc ++ map join gs)%list
      /\ List.concat gs = skipn i words
      /\ Forall (fun g => g <> []) gs
      /\ Forall (fun g => List.length g = t) (removelast gs).
Proof.
  induction fuel as [|f IH]; intros i acc Hi Hf.
  - exists []. cbn [chunk_loop]. rewrite chunk_step_done by lia. simpl.
    rewrite app_nil_r. repeat split; auto.
    symmetry. apply skipn_all2. fold n. lia.
  - destruct (Nat.eq_dec i n) as [->|Hne].
    + exists []. cbn [chunk_loop]. rewrite chunk_step_done by lia. simpl.
      rewrite app_nil_r. repeat split; auto.
      symmetry. apply skipn_all2. fold n. lia.
    + cbn [chunk_loop]. rewrite chunk_step_pos by lia.
      set (g := firstn t (skipn i words)).
      destruct (IH (Nat.min n (i + t)) (acc ++ [join g])%list)
        as (gs & Hrun & Hcat & Hne' & Hlen); [lia | subst t; lia |].
      assert (Hskip : skipn (Nat.min n (i + t)) words
                      = skipn t (skipn i words)).
      { rewrite skipn_skipn.
        destruct (Nat.le_gt_cases (i + t) n).
        - rewrite Nat.min_r by lia. f_equal. lia.
        - rewrite Nat.min_l by lia.
          rewrite !skipn_all2; auto; fold n; lia. }
      exists (g :: gs). repeat split.
      * rewrite Hrun, <- app_assoc. reflexivity.
      * simpl. rewrite Hcat, Hskip. apply firstn_skipn.
      * constructor; auto. subst g. intro E.
        apply (f_equal (@List.length string)) in E.
        rewrite length_firstn, length_skipn in E. fold n in E.
        simpl in E. subst t. lia.
      * destruct gs as [|g' gs']; [constructor|].
        change (removelast (g :: g' :: gs'))
          with (g :: removelast (g' :: gs')).
        constructor; auto.
        assert (Hlt : (i + t <= n)%nat).
        { destruct (Nat.le_gt_cases (i + t) n) as [|Hgt]; auto.
          exfalso. rewrite Nat.min_l in Hcat by lia.
          rewrite skipn_all2 in Hcat by (fold n; lia).
          inversion Hne' as [|? ? Hg' _]; subst.
          simpl in Hcat. apply app_eq_nil in Hcat. tauto. }
        subst g. rewrite length_firstn, length_skipn. fold n. lia.
Qed.

Lemma chunk_loop_more_fuel :
  forall fuel st r,
    chunk_loop fuel words target st = Some r ->
    forall fuel', (fuel <= fuel')%nat ->
                  chunk_loop fuel' words target st = Some r.
Proof.
  induction fuel as [|f IH]; intros st r H fuel' Hle.
  - simpl in H. destruct fuel'; simpl;
      destruct (chunk_step words target st); congruence.
  - destruct fuel' as [|f']; [lia|]. simpl in *.
    destruct (chunk_step words target st); auto.
    apply IH with (fuel' := f') in H; auto. lia.
Qed.

(** For a target that is not positive the index never passes 0. *)
Lemma chunk_loop_stuck (Ht : target <= 0) (Hne : words <> []) :
  forall fuel i acc,
    i <= 0 -> chunk_loop fuel words target (i, acc) = None.
Proof.
  assert (Hn : 0 < len words).
  { unfold len. destruct words; [congruence | simpl; lia]. }
  induction fuel as [|f IH]; intros i acc Hi; simpl;
    destruct (Z.ltb_spec i (len words)); try lia; auto.
  apply IH. lia.
Qed.

End ChunkerFacts.

(* ------------------------------------------------------------------ *)
(** ** Chunker: the statements *)

Section ChunkerStatements.
Import PyStr Chunker Spec.

Lemma removelast_map {A B} (f : A -> B) (l : list A) :
  removelast (map f l) = map f (removelast l).
Proof.
  induction l as [|a l IH]; [reflexivity|].
  destruct l as [|b l]; [reflexivity|].
  change (f a :: removelast (map f (b :: l)) = f a :: map f (removelast (b :: l))).
  now rewrite IH.
Qed.

Lemma map_split_join (gs : list (list string)) :
  Forall (Forall proper_word) gs -> map split (map join gs) = gs.
Proof.
  induction 1 as [|g gs Hg _ IH]; simpl; [reflexivity|].
  now rewrite split_join, IH.
Qed.

(** C5: for every text and every positive target the chunker returns
    chunks of which all but possibly the last hold exactly [target] words,
    whose words in order are the words of the text, none of which is empty,
    and there is no chunk at all when the text has no word. *)
Theorem chunk_text_by_words_spec (text : string) (target : Z) :
  1 <= target ->
  exists chunks,
    (forall fuel, (List.length (split text) <= fuel)%nat ->
                  chunk_text_by_words fuel text target = Some chunks)
    /\ Forall (fun c => Z.of_nat (List.length (split c)) = target)
              (removelast chunks)
    /\ List.concat (map split chunks) = split text
    /\ Forall (fun c => c <> "") chunks
    /\ (split text = [] -> chunks = []).
Proof.
  intro Ht.
  destruct (chunk_loop_groups (split text) target Ht
              (List.length (split text)) 0 [])
    as (gs & Hrun & Hcat & Hne & Hlen); [lia | lia |].
  simpl in Hrun, Hcat.
  assert (Hprop : Forall (Forall proper_word) gs).
  { apply Forall_concat. rewrite Hcat. apply split_proper. }
  exists (map join gs). repeat split.
  - intros fuel Hfuel. unfold chunk_text_by_words.
    eapply chunk_loop_more_fuel; [exact Hrun | exact Hfuel].
  - rewrite removelast_map. apply Forall_map.
    assert (Hprop' : Forall (Forall proper_word) (removelast gs)).
    { clear -Hprop. induction Hprop as [|g gs Hg Hgs IH]; [constructor|].
      destruct gs; [constructor|].
      change (Forall (Forall proper_word)
                (g :: removelast (l :: gs))). now constructor. }
    revert Hprop'. induction Hlen as [|g gs' Hg _ IH]; intro Hp;
      constructor; inversion Hp; subst; auto.
    rewrite split_join by assumption. lia.
  - rewrite map_split_join; assumption.
  - apply Forall_map. clear -Hne Hprop.
    induction Hne as [|g gs Hg _ IH]; inversion Hprop; subst;
      constructor; auto.
    intro E. apply Hg. rewrite <- (split_join g) by assumption.
    now rewrite E.
  - intro E. rewrite E in Hcat. destruct Hne as [|g gs Hg _]; auto.
    simpl in Hcat. apply app_eq_nil in Hcat. tauto.
Qed.

Lemma chunk_text_by_words_spec_witness :
  1 <= 2 /\
  exists chunks,
    (forall fuel,
        (List.length (split "one two three four five") <= fuel)%nat ->
        chunk_text_by_words fuel "one two three four five" 2 = Some chunks)
    /\ Forall (fun c => Z.of_nat (List.length (split c)) = 2)
              (removelast chunks)
    /\ List.concat (map split chunks) = split "one two three four five"
    /\ Forall (fun c => c <> "") chunks
    /\ (split "one two three four five" = [] -> chunks = []).
Proof.
  split; [lia|].
  apply (chunk_text_by_words_spec "one two three four five" 2). lia.
Defined.

(** The test of the repository: five words in chunks of two. *)
Example chunk_text_by_words_test :
  chunk_text_by_words 5 "one two three four five" 2
  = Some ["one two"; "three four"; "five"].
Proof. reflexivity. Qed.

(** For a positive target the loop is left after at most one turn for each
    word. *)
Lemma chunk_text_by_words_returns (text : string) (target : Z) :
  1 <= target ->
  exists chunks,
    forall fuel, (List.length (split text) <= fuel)%nat ->
                 chunk_text_by_words fuel text target = Some chunks.
Proof.
  intro Ht.
  destruct (chunk_loop_groups (split text) target Ht
              (List.length (split text)) 0 [])
    as (gs & Hrun & _); [lia | lia |].
  exists (map join gs). intros fuel Hfuel. unfold chunk_text_by_words.
  eapply chunk_loop_more_fuel; [exact Hrun | exact Hfuel].
Qed.

(** C10 (as the code has it): what decides is the words of the text, not
    its characters.  For a target of at least 1 every turn strictly
    increases the index and the function returns; for a target of at most 0
    and a text with at least one word the index never gets past 0, the test
    of the loop never fails and no amount of fuel yields a result; a text
    without any word, empty or of white space only, never enters the loop
    and the function returns the empty list whatever the target. *)
Theorem chunker_terminates_iff_positive_target (text : string) (target : Z) :
  (1 <= target ->
   (forall i chunks i' chunks',
       chunk_step (split text) target (i, chunks) = Some (i', chunks') ->
       i < i')
   /\ exists chunks,
       forall fuel, (List.length (split text) <= fuel)%nat ->
                    chunk_text_by_words fuel text target = Some chunks)
  /\ (target <= 0 -> split text <> [] ->
      (forall i chunks i' chunks',
          i <= 0 ->
          chunk_step (split text) target (i, chunks) = Some (i', chunks') ->
          i' <= 0 /\ i' < len (split text))
      /\ forall fuel, chunk_text_by_words fuel text target = None)
  /\ (split text = [] ->
      forall fuel, chunk_text_by_words fuel text target = Some []).
Proof.
  split; [|split].
  - intro Ht. split.
    + intros i chunks i' chunks' H. unfold chunk_step in H.
      destruct (Z.ltb_spec i (len (split text))); [|discriminate].
      injection H as <- _. lia.
    + now apply chunk_text_by_words_returns.
  - intros Ht Hne. split.
    + intros i chunks i' chunks' Hi H. unfold chunk_step in H.
      destruct (Z.ltb_spec i (len (split text))); [|discriminate].
      injection H as <- _. lia.
    + intro fuel. unfold chunk_text_by_words.
      apply chunk_loop_stuck; auto. lia.
  - intros E fuel. unfold chunk_text_by_words. rewrite E.
    destruct fuel; reflexivity.
Qed.

Lemma chunker_terminates_iff_positive_target_witness :
  (exists chunks,
      forall fuel, (List.length (split "a b") <= fuel)%nat ->
                   chunk_text_by_words fuel "a b" 1 = Some chunks)
  /\ (forall fuel, chunk_text_by_words fuel "a b" 0 = None)
  /\ (forall fuel, chunk_text_by_words fuel "a b" (-1) = None).
Proof.
  split; [|split].
  - destruct (chunker_terminates_iff_positive_target "a b" 1) as [H _].
    destruct H as [_ H]; [lia | exact H].
  - destruct (chunker_terminates_iff_positive_target "a b" 0) as (_ & H & _).
    destruct H as [_ H]; [lia | vm_compute; discriminate | exact H].
  - destruct (chunker_terminates_iff_positive_target "a b" (-1))
      as (_ & H & _).
    destruct H as [_ H]; [lia | vm_compute; discriminate | exact H].
Defined.

(** C10 as stated fails: a text that is not empty but holds no word, such
    as a single space, never enters the loop; the function returns the
    empty list for a target of 0 and for a negative one. *)
Lemma chunker_returns_on_blank_text :
  " " <> ""
  /\ forall fuel,
      chunk_text_by_words fuel " " 0 = Some []
      /\ chunk_text_by_words fuel " " (-5) = Some [].
Proof.
  split; [discriminate|].
  intro fuel. destruct fuel; split; reflexivity.
Qed.

End ChunkerStatements.

(* ------------------------------------------------------------------ *)
(** ** Frame selection *)

Section FrameFacts.
Import PyStr Aligner Spec.
Local Open Scope list_scope.

Lemma frames_sorted_strong (frames : list FrameSample) :
  frames_sorted frames ->
  StronglySorted (fun a b => (time a <= time b)%Q) frames.
Proof.
  apply Sorted_StronglySorted. intros a b c Hab Hbc.
  eapply Qle_trans; eassumption.
Qed.

Lemma frame_loop_latest (target : Q) (pre : list FrameSample) :
  forall f post closest,
    Forall (at_or_before target) pre ->
    at_or_before target f ->
    Forall (fun g => ~ at_or_before target g) post ->
    frame_loop target (pre ++ f :: post) closest = Some (path f).
Proof.
  induction pre as [|g pre IH]; intros f post closest Hpre Hf Hpost; simpl.
  - apply Qle_bool_iff in Hf. rewrite Hf.
    destruct Hpost as [|h post Hh _]; simpl; [reflexivity|].
    destruct (Qle_bool (time h) target) eqn:E; [|reflexivity].
    apply Qle_bool_iff in E. contradiction.
  - inversion Hpre as [|? ? Hg Hpre']; subst.
    apply Qle_bool_iff in Hg. rewrite Hg. now apply IH.
Qed.

Lemma frame_loop_none (target : Q) (frames : list FrameSample) :
  Forall (fun g => ~ at_or_before target g) frames ->
  frame_loop target frames None = None.
Proof.
  intros [|h post Hh _]; simpl; [reflexivity|].
  destruct (Qle_bool (time h) target) eqn:E; [|reflexivity].
  apply Qle_bool_iff in E. contradiction.
Qed.

(** C4: on frames in non-decreasing time order, the selected frame is the
    latest one whose time is at most the target; when no frame is that
    early it is the first frame; there is none for an empty sequence. *)
Theorem find_closest_frame_spec (target : Q) (frames : list FrameSample) :
  frames_sorted frames ->
  (frames = [] -> find_closest_frame target frames = None)
  /\ (forall pre f post,
         frames = pre ++ f :: post ->
         at_or_before target f ->
         Forall (fun g => ~ at_or_before target g) post ->
         find_closest_frame target frames = Some (path f))
  /\ (forall f0 rest,
         frames = f0 :: rest ->
         Forall (fun g => ~ at_or_before target g) frames ->
         find_closest_frame target frames = Some (path f0)).
Proof.
  intro Hs. split; [|split].
  - intros ->. reflexivity.
  - intros pre f post -> Hf Hpost.
    assert (Hpre : Forall (at_or_before target) pre).
    { apply frames_sorted_strong in Hs. clear Hpost.
      induction pre as [|g pre IH]; [constructor|].
      simpl in Hs. inversion Hs as [|? ? Hs' Hall]; subst.
      constructor; [|now apply IH].
      rewrite Forall_forall in Hall. unfold at_or_before.
      eapply Qle_trans; [apply (Hall f)|exact Hf].
      apply in_or_app. right. now left. }
    unfold find_closest_frame.
    rewrite (frame_loop_latest target pre f post None Hpre Hf Hpost).
    destruct pre; reflexivity.
  - intros f0 rest -> Hall. unfold find_closest_frame.
    now rewrite frame_loop_none.
Qed.

Lemma frames_0_10_20_sorted : frames_sorted frames_0_10_20.
Proof.
  unfold frames_sorted, frames_0_10_20.
  repeat constructor; simpl; discriminate.
Qed.

Lemma find_closest_frame_spec_witness :
  frames_sorted frames_0_10_20
  /\ find_closest_frame 15 frames_0_10_20 = Some (mkPath "f_0002.jpg").
Proof.
  split; [exact frames_0_10_20_sorted|].
  destruct (find_closest_frame_spec 15 frames_0_10_20 frames_0_10_20_sorted)
    as (_ & H & _).
  apply (H [mkFrame (mkPath "f_0001.jpg") 0]
           (mkFrame (mkPath "f_0002.jpg") 10)
           [mkFrame (mkPath "f_0003.jpg") 20]).
  - reflexivity.
  - unfold at_or_before. simpl. discriminate.
  - repeat constructor. unfold at_or_before. simpl. intro H0. now apply H0.
Defined.

(** The three selections of the specification, by running the code. *)
Example find_closest_frame_at_15 :
  find_closest_frame 15 frames_0_10_20 = Some (mkPath "f_0002.jpg").
Proof. reflexivity. Qed.

Example find_closest_frame_at_0 :
  find_closest_frame 0 frames_0_10_20 = Some (mkPath "f_0001.jpg").
Proof. reflexivity. Qed.

Example find_closest_frame_before_all :
  find_closest_frame (-3) frames_0_10_20 = Some (mkPath "f_0001.jpg").
Proof. reflexivity. Qed.

End FrameFacts.

(* ------------------------------------------------------------------ *)
(** ** Timestamp aligner *)

Section AlignerFacts.
Import PyStr Aligner Spec.
Local Open Scope list_scope.

Lemma prefix_length (a b : string) :
  String.prefix a b = true -> (String.length a <= String.length b)%nat.
Proof.
  revert b. induction a as [|x a IH]; intros b H; simpl; [lia|].
  destruct b as [|y b]; simpl in H; [discriminate|].
  destruct (ascii_dec x y); [|discriminate].
  apply IH in H. simpl. lia.
Qed.

Lemma contains_too_long (needle hay : string) :
  (String.length hay < String.length needle)%nat ->
  contains needle hay = false.
Proof.
  induction hay as [|c hay IH]; intro Hlen.
  - destruct needle; [simpl in Hlen; lia | reflexivity].
  - change (contains needle (String c hay))
      with (String.prefix needle (String c hay) || contains needle hay).
    rewrite IH by (simpl in Hlen; lia). rewrite orb_false_r.
    destruct (String.prefix needle (String c hay)) eqn:E; [|reflexivity].
    apply prefix_length in E. lia.
Qed.

Lemma length_lower (s : string) : String.length (lower s) = String.length s.
Proof. induction s as [|c s IH]; simpl; [reflexivity | now rewrite IH]. Qed.

Lemma scan_segments_first (fw : string) (pre : list CaptionSegment) :
  forall seg post,
    Forall (fun s => anchors fw s = false) pre ->
    anchors fw seg = true ->
    scan_segments fw (pre ++ seg :: post) = Some (start seg).
Proof.
  induction pre as [|s pre IH]; intros seg post Hpre Hseg; simpl.
  - unfold anchors in Hseg. now rewrite Hseg.
  - inversion Hpre as [|? ? Hs Hpre']; subst.
    unfold anchors in Hs. rewrite Hs. now apply IH.
Qed.

Lemma scan_segments_none (fw : string) (segs : list CaptionSegment) :
  Forall (fun s => anchors fw s = false) segs ->
  scan_segments fw segs = None.
Proof.
  induction 1 as [|s segs Hs _ IH]; simpl; [reflexivity|].
  unfold anchors in Hs. now rewrite Hs.
Qed.

(** The first words of a chunk that starts with the words foo, bar, baz. *)
Lemma first_words_foo_bar_baz (chunk : string) :
  firstn 3 (split chunk) = ["foo"; "bar"; "baz"] ->
  exists tl, first_words chunk = ("foo bar baz" ++ tl)%string.
Proof.
  unfold first_words. intro H.
  destruct (split chunk) as [|a [|b [|c r]]]; simpl in H; try discriminate.
  injection H as -> -> ->.
  destruct r as [|d r].
  - exists ""%string. reflexivity.
  - exists (lower (String " " (join (firstn 2 (d :: r))))).
    reflexivity.
Qed.

(** C3 (as the code has it): the aligner returns the start of the first
    caption whose lower-cased text contains the lower-cased first five
    words of the chunk joined by single spaces; when no caption does it
    returns the start of the first caption, and 0 without captions.  On the
    captions [(0.0, "hello world"), (5.0, "foo bar")] every chunk that
    starts with the words foo bar baz therefore gets 0.0, no caption
    containing those three words, and the chunk "foo bar" gets 5.0. *)
Theorem find_start_time_for_chunk_spec
        (chunk : string) (segs : list CaptionSegment) :
  (forall pre seg post,
      segs = pre ++ seg :: post ->
      Forall (fun s => anchors (first_words chunk) s = false) pre ->
      anchors (first_words chunk) seg = true ->
      find_start_time_for_chunk chunk segs = start seg)
  /\ (Forall (fun s => anchors (first_words chunk) s = false) segs ->
      find_start_time_for_chunk chunk segs
      = match segs with seg0 :: _ => start seg0 | [] => 0%Q end)
  /\ (firstn 3 (split chunk) = ["foo"; "bar"; "baz"] ->
      find_start_time_for_chunk chunk captions_example = 0%Q)
  /\ find_start_time_for_chunk "foo bar" captions_example = 5%Q.
Proof.
  split; [|split; [|split]].
  - intros pre seg post -> Hpre Hseg. unfold find_start_time_for_chunk.
    now rewrite (scan_segments_first _ pre seg post Hpre Hseg).
  - intro Hall. unfold find_start_time_for_chunk.
    now rewrite scan_segments_none.
  - intro H3. destruct (first_words_foo_bar_baz chunk H3) as [tl Hfw].
    unfold find_start_time_for_chunk. rewrite scan_segments_none.
    + reflexivity.
    + rewrite Hfw. unfold captions_example, anchors.
      constructor; [|constructor; [|constructor]]; simpl text.
      * change (lower "hello world") with "hello world"%string.
        simpl. reflexivity.
      * apply contains_too_long. rewrite length_lower, length_append.
        simpl. lia.
  - reflexivity.
Qed.

Lemma find_start_time_for_chunk_spec_witness :
  firstn 3 (split "foo bar baz and more words") = ["foo"; "bar"; "baz"]
  /\ find_start_time_for_chunk "foo bar baz and more words" captions_example
     = 0%Q.
Proof.
  split; [reflexivity|].
  destruct (find_start_time_for_chunk_spec
              "foo bar baz and more words" captions_example)
    as (_ & _ & H & _).
  apply H. reflexivity.
Defined.

(** C3 as stated fails: for the chunk "foo bar baz" the code returns 0.0,
    not 5.0. *)
Lemma find_start_time_for_chunk_not_5 :
  firstn 3 (split "foo bar baz") = ["foo"; "bar"; "baz"]
  /\ find_start_time_for_chunk "foo bar baz" captions_example = 0%Q
  /\ ~ (find_start_time_for_chunk "foo bar baz" captions_example == 5)%Q.
Proof.
  split; [reflexivity|]. split; [reflexivity|].
  vm_compute. discriminate.
Qed.

End AlignerFacts.

(* ------------------------------------------------------------------ *)
(** ** Diagram normalizer *)

Section DiagramFacts.
Import PyStr Diagrams Spec.

Lemma prefix_contains (p s : string) :
  String.prefix p s = true -> contains p s = true.
Proof. intro H. destruct s; simpl in *; now rewrite H. Qed.

Lemma lower_append (a b : string) : lower (a ++ b) = lower a ++ lower b.
Proof. induction a as [|c a IH]; simpl; [reflexivity | now rewrite IH]. Qed.

Lemma strip_empty : strip "" = "".
Proof. reflexivity. Qed.

Lemma normalize_mermaid_some (dt text : string) :
  is_empty (strip text) = false ->
  normalize_mermaid dt text
  = Some (mkDiagram (lower dt) (with_directive (lower dt) (stripped text))).
Proof.
  intro H. unfold normalize_mermaid. rewrite H.
  destruct text; [discriminate | reflexivity].
Qed.

(** C6 as stated fails: for the type timeline and a text that contains the
    word timeline the text is returned as it is, and it begins neither with
    [flowchart TD] nor, in any letter case, with [flowchart]. *)
Lemma normalize_mermaid_timeline_kept :
  is_empty (strip timeline_text) = false
  /\ normalize_mermaid "timeline" timeline_text
     = Some (mkDiagram "timeline" timeline_text)
  /\ startswith timeline_text "flowchart TD" = false
  /\ startswith (lower timeline_text) "flowchart" = false.
Proof. repeat split; reflexivity. Qed.

(** C6 (as the code has it): a text that is empty or white space only
    yields no DiagramSpec, for every type.  Otherwise, with [m] the text
    stripped of white space and backticks, a DiagramSpec of the given type
    is returned and:
    - mindmap: its text begins with [mindmap] in some letter case; it is
      [m] when [m] already begins so, else [m] after the line [mindmap];
    - hierarchy: likewise with [graph], the line added being [graph TD];
    - flowchart: the line [flowchart TD] is put first when [m] has no
      [flowchart] in it, and [m] is kept when it begins with [flowchart];
    - timeline: the line [flowchart TD] is put first when [m] has no
      [timeline] in it, and [m] is kept when it begins with [timeline].
    [pipeline/diagrams.py] agrees on every type written in lower case. *)
Theorem normalize_mermaid_spec (text : string) :
  (is_empty (strip text) = true ->
   forall dt, normalize_mermaid dt text = None)
  /\ (is_empty (strip text) = false ->
      let m := stripped text in
      (exists m',
          normalize_mermaid "mindmap" text = Some (mkDiagram "mindmap" m')
          /\ startswith (lower m') "mindmap" = true
          /\ (startswith (lower m) "mindmap" = true -> m' = m)
          /\ (startswith (lower m) "mindmap" = false ->
              m' = "mindmap" ++ nl ++ "  " ++ m))
      /\ (exists m',
             normalize_mermaid "hierarchy" text
             = Some (mkDiagram "hierarchy" m')
             /\ startswith (lower m') "graph" = true
             /\ (startswith (lower m) "graph" = true -> m' = m)
             /\ (startswith (lower m) "graph" = false ->
                 m' = "graph TD" ++ nl ++ "  " ++ m))
      /\ (contains "flowchart" (lower m) = false ->
          normalize_mermaid "flowchart" text
          = Some (mkDiagram "flowchart" ("flowchart TD" ++ nl ++ "  " ++ m)))
      /\ (startswith (lower m) "flowchart" = true ->
          normalize_mermaid "flowchart" text = Some (mkDiagram "flowchart" m))
      /\ (contains "timeline" (lower m) = false ->
          normalize_mermaid "timeline" text
          = Some (mkDiagram "timeline" ("flowchart TD" ++ nl ++ "  " ++ m)))
      /\ (startswith (lower m) "timeline" = true ->
          normalize_mermaid "timeline" text = Some (mkDiagram "timeline" m)))
  /\ (forall dt, lower dt = dt ->
                 PipelineDiagrams.normalize_mermaid dt text
                 = normalize_mermaid dt text).
Proof.
  split; [|split].
  - intros H dt. unfold normalize_mermaid. rewrite H.
    now rewrite orb_true_r.
  - intros H m.
    repeat apply conj.
    + rewrite (normalize_mermaid_some _ _ H). fold m.
      change (lower "mindmap") with "mindmap".
      unfold with_directive. change ("mindmap" =? "mindmap")%string with true.
      destruct (startswith (lower m) "mindmap") eqn:E; simpl.
      * exists m. split; [reflexivity|]. split; [exact E|].
        split; [reflexivity | discriminate].
      * eexists. split; [reflexivity|]. split; [reflexivity|].
        split; [discriminate | reflexivity].
    + rewrite (normalize_mermaid_some _ _ H). fold m.
      change (lower "hierarchy") with "hierarchy".
      unfold with_directive.
      change ("hierarchy" =? "mindmap")%string with false.
      change ("hierarchy" =? "flowchart")%string with false.
      change ("hierarchy" =? "hierarchy")%string with true.
      destruct (startswith (lower m) "graph") eqn:E; simpl.
      * exists m. split; [reflexivity|]. split; [exact E|].
        split; [reflexivity | discriminate].
      * eexists. split; [reflexivity|]. split; [reflexivity|].
        split; [discriminate | reflexivity].
    + intro E. rewrite (normalize_mermaid_some _ _ H). fold m.
      change (lower "flowchart") with "flowchart".
      unfold with_directive. rewrite E. reflexivity.
    + intro E. rewrite (normalize_mermaid_some _ _ H). fold m.
      change (lower "flowchart") with "flowchart".
      unfold with_directive. unfold startswith in E.
      rewrite (prefix_contains _ _ E). reflexivity.
    + intro E. rewrite (normalize_mermaid_some _ _ H). fold m.
      change (lower "timeline") with "timeline".
      unfold with_directive. rewrite E. reflexivity.
    + intro E. rewrite (normalize_mermaid_some _ _ H). fold m.
      change (lower "timeline") with "timeline".
      unfold with_directive. unfold startswith in E.
      rewrite (prefix_contains _ _ E). reflexivity.
  - intros dt Hdt. unfold PipelineDiagrams.normalize_mermaid,
      normalize_mermaid. now rewrite Hdt.
Qed.

Lemma normalize_mermaid_spec_witness :
  is_empty (strip "A-->B") = false
  /\ contains "flowchart" (lower (stripped "A-->B")) = false
  /\ normalize_mermaid "flowchart" "A-->B"
     = Some (mkDiagram "flowchart"
               ("flowchart TD" ++ nl ++ "  " ++ stripped "A-->B")).
Proof.
  split; [reflexivity|]. split; [reflexivity|].
  destruct (normalize_mermaid_spec "A-->B") as (_ & H & _).
  destruct (H eq_refl) as (_ & _ & Hflow & _).
  apply Hflow. reflexivity.
Defined.

(** The two normalizations of the specification's test list. *)
Example normalize_mermaid_mindmap_arrow :
  normalize_mermaid "mindmap" "A-->B"
  = Some (mkDiagram "mindmap" ("mindmap" ++ nl ++ "  A-->B")).
Proof. reflexivity. Qed.

Example normalize_mermaid_flowchart_kept :
  normalize_mermaid "flowchart" ("  flowchart LR" ++ nl ++ "  A-->B ")
  = Some (mkDiagram "flowchart" ("flowchart LR" ++ nl ++ "  A-->B")).
Proof. reflexivity. Qed.

End DiagramFacts.

(* ------------------------------------------------------------------ *)
(** ** The decoder: enough fuel

    [json_loads] gives the scanner twice the length of the text, and two
    more, as fuel.  That is enough: with that much or more the scanner
    never stops for want of fuel, so its result does not depend on it. *)

Section JsonFacts.
Import PyStr Json Spec.
Local Open Scope nat_scope.

Abbreviation size := String.length.

Lemma lstrip_size (p : ascii -> bool) (s : string) :
  size (lstrip p s) <= size s.
Proof.
  induction s as [|c s IH]; simpl; [lia|]. destruct (p c); simpl; lia.
Qed.

Lemma skip_ws_size (s : string) : size (skip_ws s) <= size s.
Proof. apply lstrip_size. Qed.

Lemma head_is_size (c : ascii) (s r : string) :
  head_is c s = Some r -> size s = S (size r).
Proof.
  destruct s as [|d s]; simpl; [discriminate|].
  destruct (Ascii.eqb c d); [|discriminate]. now intros [= ->].
Qed.

Lemma cons_char_some (c : ascii) (o : option (string * string))
      (b rest : string) :
  cons_char c o = Some (b, rest) -> exists b', o = Some (b', rest).
Proof.
  destruct o as [[b' r']|]; simpl; [|discriminate].
  intros [= _ ->]. now exists b'.
Qed.

Lemma scan_string_size :
  forall n s b r, size s <= n -> scan_string s = Some (b, r) -> size r < size s.
Proof.
  induction n as [|n IH]; intros s b r Hn H;
    destruct s as [|c s]; simpl in *; try discriminate; [lia|].
  destruct (Ascii.eqb c dq); [injection H as _ <-; lia|].
  destruct (Ascii.eqb c "\"%char).
  - destruct s as [|e s]; [discriminate|].
    destruct (Ascii.eqb e "u"%char).
    + destruct s as [|h1 [|h2 [|h3 [|h4 s]]]]; try discriminate.
      destruct (unicode_escape h1 h2 h3 h4); [|discriminate].
      apply cons_char_some in H. destruct H as [b' H].
      apply IH in H; simpl in *; lia.
    + destruct (simple_escape e); [|discriminate].
      apply cons_char_some in H. destruct H as [b' H].
      apply IH in H; simpl in *; lia.
  - destruct (nat_of_ascii c <? 32); [discriminate|].
    apply cons_char_some in H. destruct H as [b' H].
    apply IH in H; simpl in *; lia.
Qed.

Lemma span_digits_size (s ds r : string) :
  span_digits s = (ds, r) -> size ds + size r = size s.
Proof.
  revert ds r. induction s as [|c s IH]; simpl; intros ds r H.
  - injection H as <- <-. reflexivity.
  - destruct (is_digit c).
    + destruct (span_digits s) as [ds' r'] eqn:E. injection H as <- <-.
      simpl. rewrite (IH ds' r' eq_refl). reflexivity.
    + injection H as <- <-. reflexivity.
Qed.

Lemma drop_prefix_size (p s r : string) :
  drop_prefix p s = Some r -> size s = size p + size r.
Proof.
  revert s. induction p as [|a p IH]; simpl; intros s H.
  - now injection H as ->.
  - destruct s as [|b s]; [discriminate|].
    destruct (Ascii.eqb a b); [|discriminate].
    simpl. now rewrite (IH _ H).
Qed.

Lemma scan_integer_size (s lex r : string) :
  scan_integer s = Some (lex, r) -> size r < size s.
Proof.
  unfold scan_integer.
  destruct (head_is "-" s) as [body|] eqn:Hs.
  - apply head_is_size in Hs.
    destruct (head_is "0" body) as [r0|] eqn:H0.
    + apply head_is_size in H0. intros [= _ <-]. lia.
    + destruct (span_digits body) as [ds rest] eqn:E.
      apply span_digits_size in E.
      destruct ds; [discriminate|]. intros [= _ <-]. simpl in E. lia.
  - destruct (head_is "0" s) as [r0|] eqn:H0.
    + apply head_is_size in H0. intros [= _ <-]. lia.
    + destruct (span_digits s) as [ds rest] eqn:E.
      apply span_digits_size in E.
      destruct ds; [discriminate|]. intros [= _ <-]. simpl in E. lia.
Qed.

Lemma scan_fraction_size (s lex r : string) :
  scan_fraction s = (lex, r) -> size r <= size s.
Proof.
  unfold scan_fraction. destruct (head_is "." s) as [r0|] eqn:H0.
  - apply head_is_size in H0.
    destruct (span_digits r0) as [ds rest] eqn:E.
    apply span_digits_size in E.
    destruct ds; intros [= _ <-]; simpl in E; lia.
  - intros [= _ <-]. lia.
Qed.

Lemma scan_exponent_size (s lex r : string) :
  scan_exponent s = (lex, r) -> size r <= size s.
Proof.
  unfold scan_exponent. destruct s as [|e s]; [intros [= _ <-]; simpl; lia|].
  destruct (Ascii.eqb e "e"%char || Ascii.eqb e "E"%char);
    [|intros [= _ <-]; lia].
  destruct (head_is "-" s) as [r1|] eqn:H1;
    [|destruct (head_is "+" s) as [r2|] eqn:H2];
    try apply head_is_size in H1; try apply head_is_size in H2;
    match goal with
    | |- context [span_digits ?b] =>
        destruct (span_digits b) as [ds rest] eqn:E;
        apply span_digits_size in E
    end;
    destruct ds; intros [= _ <-]; simpl in *; lia.
Qed.

Lemma scan_number_size (s : string) (v : value) (r : string) :
  scan_number s = Some (v, r) -> size r < size s.
Proof.
  unfold scan_number.
  destruct (scan_integer s) as [[int r1]|] eqn:E1; [|discriminate].
  destruct (scan_fraction r1) as [frac r2] eqn:E2.
  destruct (scan_exponent r2) as [exp r3] eqn:E3.
  apply scan_integer_size in E1. apply scan_fraction_size in E2.
  apply scan_exponent_size in E3.
  destruct (is_empty frac && is_empty exp); intros [= _ <-]; lia.
Qed.

Lemma scan_atom_size (s : string) (v : value) (r : string) :
  scan_atom s = Some (v, r) -> size r < size s.
Proof.
  unfold scan_atom.
  repeat match goal with
         | |- context [drop_prefix ?p s] =>
             let E := fresh "E" in
             destruct (drop_prefix p s) eqn:E;
             [apply drop_prefix_size in E; intros [= _ <-]; simpl in E; lia|]
         | |- context [scan_number s] =>
             let E := fresh "E" in
             destruct (scan_number s) as [[v' r']|] eqn:E;
             [apply scan_number_size in E; intros [= _ <-]; exact E|]
         end.
  discriminate.
Qed.

(** The three functions of the scanner consume what they read. *)
Lemma parse_size (f : nat) :
  (forall s v r, parse_value f s = Some (v, r) -> size r < size s)
  /\ (forall s acc v r, parse_members f s acc = Some (v, r) -> size r < size s)
  /\ (forall s acc v r, parse_items f s acc = Some (v, r) -> size r < size s).
Proof.
  induction f as [|f (IHv & IHm & IHi)];
    [repeat split; intros; discriminate|].
  repeat apply conj.
  - intros s v r H. cbn [parse_value] in H.
    destruct s as [|c s]; [discriminate|].
    destruct (Ascii.eqb c dq).
    { destruct (scan_string s) as [[str rest]|] eqn:E; [|discriminate].
      apply (scan_string_size _ _ _ _ (le_n _)) in E.
      injection H as _ <-. simpl. lia. }
    pose proof (skip_ws_size s) as Hws.
    destruct (Ascii.eqb c "{"%char).
    { destruct (head_is "}" (skip_ws s)) as [r1|] eqn:E1.
      - apply head_is_size in E1. injection H as _ <-. simpl. lia.
      - destruct (head_is dq (skip_ws s)) as [r1|] eqn:E2; [|discriminate].
        apply head_is_size in E2. apply IHm in H. simpl. lia. }
    destruct (Ascii.eqb c "["%char).
    { destruct (head_is "]" (skip_ws s)) as [r1|] eqn:E1.
      - apply head_is_size in E1. injection H as _ <-. simpl. lia.
      - apply IHi in H. simpl. lia. }
    now apply scan_atom_size in H.
  - intros s acc v r H. cbn [parse_members] in H.
    destruct (scan_string s) as [[key r0]|] eqn:E0; [|discriminate].
    apply (scan_string_size _ _ _ _ (le_n _)) in E0.
    pose proof (skip_ws_size r0) as Hw0.
    destruct (head_is ":" (skip_ws r0)) as [r1|] eqn:E1; [|discriminate].
    apply head_is_size in E1. pose proof (skip_ws_size r1) as Hw1.
    destruct (parse_value f (skip_ws r1)) as [[v' r2]|] eqn:E2;
      [|discriminate].
    apply IHv in E2. pose proof (skip_ws_size r2) as Hw2.
    destruct (head_is "}" (skip_ws r2)) as [r3|] eqn:E3.
    + apply head_is_size in E3. injection H as _ <-. lia.
    + destruct (head_is "," (skip_ws r2)) as [r3|] eqn:E4; [|discriminate].
      apply head_is_size in E4. pose proof (skip_ws_size r3) as Hw3.
      destruct (head_is dq (skip_ws r3)) as [r4|] eqn:E5; [|discriminate].
      apply head_is_size in E5. apply IHm in H. lia.
  - intros s acc v r H. cbn [parse_items] in H.
    destruct (parse_value f s) as [[v' r0]|] eqn:E0; [|discriminate].
    apply IHv in E0. pose proof (skip_ws_size r0) as Hw0.
    destruct (head_is "]" (skip_ws r0)) as [r1|] eqn:E1.
    + apply head_is_size in E1. injection H as _ <-. lia.
    + destruct (head_is "," (skip_ws r0)) as [r1|] eqn:E2; [|discriminate].
      apply head_is_size in E2. pose proof (skip_ws_size r1) as Hw1.
      apply IHi in H. lia.
Qed.

(** Above their bound the three functions do not depend on the fuel. *)
Lemma parse_fuel_stable (n : nat) :
  forall s, size s <= n ->
    (forall f f', 2 * size s + 2 <= f -> 2 * size s + 2 <= f' ->
                  parse_value f s = parse_value f' s)
    /\ (forall f f' acc, 2 * size s + 1 <= f -> 2 * size s + 1 <= f' ->
                         parse_members f s acc = parse_members f' s acc)
    /\ (forall f f' acc, 2 * size s + 3 <= f -> 2 * size s + 3 <= f' ->
                         parse_items f s acc = parse_items f' s acc).
Proof.
  induction n as [n IH] using lt_wf_ind. intros s Hn.
  assert (Hv : forall f f', 2 * size s + 2 <= f -> 2 * size s + 2 <= f' ->
                            parse_value f s = parse_value f' s).
  { intros [|f] [|f'] Hf Hf'; try lia. cbn [parse_value].
    destruct s as [|c s]; [reflexivity|]. simpl in Hn, Hf, Hf'.
    destruct (Ascii.eqb c dq); [reflexivity|].
    pose proof (skip_ws_size s) as Hws.
    destruct (Ascii.eqb c "{"%char).
    { destruct (head_is "}" (skip_ws s)); [reflexivity|].
      destruct (head_is dq (skip_ws s)) as [r1|] eqn:E; [|reflexivity].
      apply head_is_size in E.
      apply (IH (size r1)); lia. }
    destruct (Ascii.eqb c "["%char); [|reflexivity].
    destruct (head_is "]" (skip_ws s)); [reflexivity|].
    apply (IH (size (skip_ws s))); lia. }
  split; [exact Hv | split].
  - intros [|f] [|f'] acc Hf Hf'; try lia. cbn [parse_members].
    destruct (scan_string s) as [[key r0]|] eqn:E0; [|reflexivity].
    apply (scan_string_size _ _ _ _ (le_n _)) in E0.
    pose proof (skip_ws_size r0) as Hw0.
    destruct (head_is ":" (skip_ws r0)) as [r1|] eqn:E1; [|reflexivity].
    apply head_is_size in E1. pose proof (skip_ws_size r1) as Hw1.
    assert (Ev : parse_value f (skip_ws r1) = parse_value f' (skip_ws r1))
      by (apply (IH (size (skip_ws r1))); lia).
    rewrite <- Ev.
    destruct (parse_value f (skip_ws r1)) as [[v r2]|] eqn:E2; [|reflexivity].
    apply (proj1 (parse_size f)) in E2. pose proof (skip_ws_size r2) as Hw2.
    destruct (head_is "}" (skip_ws r2)); [reflexivity|].
    destruct (head_is "," (skip_ws r2)) as [r3|] eqn:E4; [|reflexivity].
    apply head_is_size in E4. pose proof (skip_ws_size r3) as Hw3.
    destruct (head_is dq (skip_ws r3)) as [r4|] eqn:E5; [|reflexivity].
    apply head_is_size in E5.
    apply (IH (size r4)); lia.
  - intros [|f] [|f'] acc Hf Hf'; try lia. cbn [parse_items].
    rewrite (Hv f f') by lia.
    destruct (parse_value f' s) as [[v r0]|] eqn:E0; [|reflexivity].
    apply (proj1 (parse_size f')) in E0. pose proof (skip_ws_size r0) as Hw0.
    destruct (head_is "]" (skip_ws r0)); [reflexivity|].
    destruct (head_is "," (skip_ws r0)) as [r1|] eqn:E2; [|reflexivity].
    apply head_is_size in E2. pose proof (skip_ws_size r1) as Hw1.
    apply (IH (size (skip_ws r1))); lia.
Qed.

(** The fuel of [json_loads] is enough: more fuel changes nothing. *)
Lemma json_loads_fuel (s : string) (f : nat) :
  2 * size (skip_ws s) + 2 <= f ->
  parse_value f (skip_ws s) = parse_value (2 * size s + 2) (skip_ws s).
Proof.
  intro Hf. pose proof (skip_ws_size s) as Hws.
  apply (proj1 (parse_fuel_stable _ _ (le_n _))); lia.
Qed.

End JsonFacts.

(* ------------------------------------------------------------------ *)
(** ** Response extractor *)

Section ExtractorFacts.
Import PyStr Json Extractor Spec.
Local Open Scope list_scope.

Lemma find_char_absent (c : ascii) (s : string) :
  ~ occurs c s -> find_char c s = -1.
Proof.
  unfold occurs. induction s as [|d s IH]; simpl; intro H; [reflexivity|].
  destruct (Ascii.eqb_spec c d) as [->|Hne]; [exfalso; auto|].
  rewrite IH by tauto. reflexivity.
Qed.

Lemma rfind_char_absent (c : ascii) (s : string) :
  ~ occurs c s -> rfind_char c s = -1.
Proof.
  unfold occurs. induction s as [|d s IH]; simpl; intro H; [reflexivity|].
  rewrite IH by tauto. simpl.
  destruct (Ascii.eqb_spec c d) as [->|Hne]; [exfalso; auto | reflexivity].
Qed.

(** C2: on the text [{"a":[1,2,],}] the candidate between the outer braces
    is the whole text, the decoder refuses it, dropping the commas that
    stand before a closing bracket or brace gives [{"a":[1,2]}], and the
    extractor returns the object with the one key [a] bound to [[1,2]]. *)
Theorem safe_parse_json_trailing_commas :
  let s := quoted "{'a':[1,2,],}" in
  slice (after_fences s) (find_char "{" (after_fences s))
        (rfind_char "}" (after_fences s) + 1) = s
  /\ json_loads s = Raise JSONDecodeError
  /\ remove_trailing_commas s = quoted "{'a':[1,2]}"
  /\ json_loads (quoted "{'a':[1,2]}")
     = Return (JObj [("a", JArr [JInt 1; JInt 2])])
  /\ safe_parse_json s = Return (Some (JObj [("a", JArr [JInt 1; JInt 2])])).
Proof. repeat split; vm_compute; reflexivity. Qed.

(** The three extractions of the repository's tests. *)
Example safe_parse_json_valid :
  safe_parse_json (quoted "{'title': 'Test', 'bullets': ['b1']}")
  = Return (Some (JObj [("title", JStr "Test");
                        ("bullets", JArr [JStr "b1"])])).
Proof. vm_compute. reflexivity. Qed.

Example safe_parse_json_with_markdown :
  safe_parse_json
    (quoted ("Some text before ```json" ++ Diagrams.nl
             ++ "{'title': 'Test'}" ++ Diagrams.nl ++ "``` after"))
  = Return (Some (JObj [("title", JStr "Test")])).
Proof. vm_compute. reflexivity. Qed.

Example safe_parse_json_test_trailing_comma :
  safe_parse_json (quoted "{'title': 'Test', 'bullets': ['b1',],}")
  = Return (Some (JObj [("title", JStr "Test");
                        ("bullets", JArr [JStr "b1"])])).
Proof. vm_compute. reflexivity. Qed.

Lemma safe_parse_json_returns (s : string) :
  exists r, safe_parse_json s = Return r.
Proof.
  unfold safe_parse_json.
  destruct (is_empty s); [now exists None|].
  set (s' := after_fences s).
  destruct ((find_char "{" s' =? -1) || (rfind_char "}" s' =? -1)
            || (rfind_char "}" s' <=? find_char "{" s'));
    [now exists None|].
  set (candidate := slice s' _ _).
  destruct (json_loads candidate) as [v|e]; simpl; [now exists (Some v)|].
  destruct (json_loads (remove_trailing_commas candidate)) as [v|e'];
    simpl; [now exists (Some v) | now exists None].
Qed.

(** C9: the extractor returns for every text, without raising; when the
    text left by the handling of fences has no opening brace or no closing
    brace the value returned is [None].  The older extractor of
    [pipeline/llm.py] returns for every text as well. *)
Theorem safe_parse_json_never_raises (s : string) :
  (exists r, safe_parse_json s = Return r)
  /\ (~ occurs "{" (after_fences s) \/ ~ occurs "}" (after_fences s) ->
      safe_parse_json s = Return None)
  /\ (exists r, PipelineLlm.safe_parse_json s = Return r).
Proof.
  split; [apply safe_parse_json_returns | split].
  - intro H. unfold safe_parse_json.
    destruct (is_empty s); [reflexivity|].
    destruct H as [H|H].
    + rewrite (find_char_absent _ _ H). reflexivity.
    + rewrite (rfind_char_absent _ _ H). simpl.
      now rewrite orb_true_r.
  - unfold PipelineLlm.safe_parse_json.
    destruct (json_loads s) as [v|e]; simpl; [now exists (Some v)|].
    destruct (negb (find_char "{" s =? -1) && negb (rfind_char "}" s =? -1));
      [|now exists None].
    destruct (json_loads _) as [v|e']; simpl;
      [now exists (Some v) | now exists None].
Qed.

Lemma safe_parse_json_never_raises_witness :
  ~ occurs "{" (after_fences "no braces at all")
  /\ safe_parse_json "no braces at all" = Return None.
Proof.
  assert (H : ~ occurs "{" (after_fences "no braces at all")).
  { vm_compute. intuition discriminate. }
  split; [exact H|].
  destruct (safe_parse_json_never_raises "no braces at all") as (_ & Hn & _).
  apply Hn. left. exact H.
Defined.

(** The older extractor of [pipeline/llm.py] tries the whole text first, so a
    text without braces that is JSON by itself is returned decoded. *)
Example pipeline_llm_safe_parse_json_scalar :
  PipelineLlm.safe_parse_json "123" = Return (Some (Json.JInt 123)).
Proof. vm_compute. reflexivity. Qed.

End ExtractorFacts.

(* ------------------------------------------------------------------ *)
(** ** Generation client *)

Section ClientFacts.
Import PyStr Json Extractor Diagrams Aligner Pipeline Spec.
Local Open Scope list_scope.

(** The real [call_local_llm] never returns a text: when the request and
    the reading of its lines succeed, the pause that follows reads a name
    that is not bound. *)
Lemma call_local_llm_returns_none (cfg : Config) (service : Service)
      (prompt model : string) (n : nat) :
  call_local_llm cfg service prompt model n = Return None.
Proof.
  unfold call_local_llm.
  destruct (service _ prompt n) as [lines|]; [|reflexivity].
  destruct (read_lines lines "") as [full_text|e]; reflexivity.
Qed.

(** With the real [call_local_llm] no attempt ever succeeds, whatever the
    service does: every model is called twice and no text is kept. *)
Lemma attempts_real (cfg : Config) (service : Service) (n : nat)
      (prompt model : string) :
  forall trace,
    attempts (call_local_llm cfg service) n prompt model trace
    = Return (None, trace ++ repeat model n).
Proof.
  induction n as [|n IH]; intro trace; simpl.
  - now rewrite app_nil_r.
  - rewrite call_local_llm_returns_none. cbn [bind].
    rewrite IH, <- app_assoc. reflexivity.
Qed.

Lemma try_models_real (cfg : Config) (service : Service)
      (models : list string) (prompt : string) :
  forall trace,
    try_models (call_local_llm cfg service) models prompt trace
    = Return (None, trace ++ flat_map (fun m => [m; m]) models).
Proof.
  induction models as [|m models IH]; intro trace;
    cbn [try_models flat_map].
  - now rewrite app_nil_r.
  - rewrite (attempts_real cfg service 2 prompt m trace). cbn [bind str_truthy].
    rewrite IH, <- app_assoc. reflexivity.
Qed.

Lemma process_chunks_real (cfg : Config) (service : Service) (vid : string)
      (segs : list CaptionSegment) (frames : list FrameSample) (total : nat)
      (chunks : list string) :
  forall idx slides trace,
  exists trace',
    process_chunks (call_local_llm cfg service) cfg vid segs frames total idx
                   chunks slides trace
    = Return (slides, trace').
Proof.
  induction chunks as [|chunk rest IH]; intros idx slides trace; simpl.
  - now exists trace.
  - unfold process_chunk. rewrite try_models_real. cbn [bind]. apply IH.
Qed.

(** So the deck of every video is empty when the calls go to the service. *)
Lemma process_video_file_real (cfg : Config) (service : Service)
      (vid : string) (segs : list CaptionSegment) (frames : list FrameSample)
      (chunks : list string) :
  exists trace,
    process_video_file (call_local_llm cfg service) cfg vid segs frames chunks
    = Return ([], trace).
Proof. apply process_chunks_real. Qed.

(** The retry loops as such do what the fallback scenario asks, for any
    [call_local_llm] whose results are those of the scenario: two calls of
    the primary model that return [None], then a call of the first
    fallback that returns a text decoded to a non-empty object. *)
Lemma try_models_fallback_scenario
      (llm : LLM) (prompt primary fallback text : string)
      (others : list string) (v : value) :
  llm prompt primary 0%nat = Return None ->
  llm prompt primary 1%nat = Return None ->
  llm prompt fallback 2%nat = Return (Some text) ->
  is_empty text = false ->
  safe_parse_json text = Return (Some v) ->
  truthy v = true ->
  try_models llm (primary :: fallback :: others) prompt []
  = Return (Some text, [primary; primary; fallback]).
Proof.
  intros H0 H1 H2 Hne Hparse Htruthy.
  cbn [try_models attempts List.length app bind].
  rewrite H0. cbn [bind List.length app]. rewrite H1.
  cbn [bind str_truthy List.length app]. rewrite H2. cbn [bind].
  rewrite Hne. cbn [negb]. rewrite Hparse. cbn [bind parsed_truthy].
  rewrite Htruthy. cbn [bind str_truthy]. now rewrite Hne.
Qed.

(** C1 on the code: with the service above the text streamed for the
    fallback model is one that the extractor decodes to a non-empty
    object, yet the client makes four calls, two for each model, and the
    chunk gets no slide. *)
Theorem fallback_scenario_makes_four_calls :
  read_lines [quoted "{'response': '{\'title\': \'T\'}', 'done': true}"] ""
  = Return (quoted "{'title': 'T'}")
  /\ safe_parse_json (quoted "{'title': 'T'}")
     = Return (Some (JObj [("title", JStr "T")]))
  /\ process_chunk (call_local_llm default_config fallback_service)
                   default_config "lecture" [] [] 1 1 "some words" []
     = Return (None, [ "qwen2.5-coder:7b"; "qwen2.5-coder:7b";
                       "llama3:latest"; "llama3:latest" ]).
Proof. repeat split; vm_compute; reflexivity. Qed.

(** A text that decodes to the empty object counts as a failed attempt: the
    test [if parsed:] is false for [{}]. *)
Example empty_object_is_a_failed_attempt :
  safe_parse_json "{}" = Return (Some (JObj []))
  /\ try_models (fun _ _ _ => Return (Some "{}"%string))
                ["llama3:latest"%string] "prompt" []
     = Return (None, ["llama3:latest"; "llama3:latest"]%string).
Proof. split; vm_compute; reflexivity. Qed.

End ClientFacts.

(* ------------------------------------------------------------------ *)
(** ** Slide assembler *)

Section AssemblerFacts.
Import PyStr Json Extractor Diagrams Aligner Pipeline Spec.
Local Open Scope list_scope.

Lemma lower_char_idem (c : ascii) : lower_char (lower_char c) = lower_char c.
Proof.
  destruct c as [[] [] [] [] [] [] [] []]; vm_compute; reflexivity.
Qed.

Lemma lower_idem (s : string) : lower (lower s) = lower s.
Proof.
  induction s as [|c s IH]; simpl; [reflexivity|].
  now rewrite lower_char_idem, IH.
Qed.

Lemma with_directive_unrecognized (dt m : string) :
  ~ In dt recognized -> with_directive dt m = m.
Proof.
  intro H. unfold with_directive.
  assert (E : forall k, In k recognized -> (dt =? k)%string = false).
  { intros k Hk. apply String.eqb_neq. intros ->. contradiction. }
  rewrite !E; simpl; auto 6.
Qed.

(** C7 as stated fails: the type [pie] is not turned into [none]; the slide
    carries a diagram of type [pie]. *)
Lemma build_slide_keeps_unrecognized_type :
  ~ In "pie"%string ("none"%string :: recognized)
  /\ exists slide,
      build_slide pie_output "some words" "lecture" [] [] = Return slide
      /\ diagram slide = Some (mkDiagram "pie" "pie title Pets").
Proof.
  split.
  - simpl. intuition discriminate.
  - eexists. split; vm_compute; reflexivity.
Qed.

(** C7 (as the code has it): on a decoded object whose diagram type and
    diagram text are strings, absent or empty, the slide is built and
    - an absent title or notes is the empty text, absent bullets the empty
      sequence;
    - an absent diagram type, the type none in any letter case, or a blank
      diagram text give no diagram;
    - every other type, recognized or not, gives a diagram of that type in
      lower case when the text is not blank; for a type outside the four
      diagram kinds its text is the given one, stripped. *)
Theorem build_slide_fields
        (llm_out chunk vid : string) (segs : list CaptionSegment)
        (frames : list FrameSample) (d : list (string * value))
        (t m : string) :
  safe_parse_json llm_out = Return (Some (JObj d)) ->
  get_or "diagram_type" (JStr "none") d = JStr t ->
  get_or "mermaid" (JStr "") d = JStr m ->
  exists slide,
    build_slide llm_out chunk vid segs frames = Return slide
    /\ (dict_get "title" d = None -> title slide = JStr "")
    /\ (dict_get "notes" d = None -> notes slide = JStr "")
    /\ (dict_get "bullets" d = None -> bullets slide = JArr [])
    /\ (dict_get "diagram_type" d = None -> diagram slide = None)
    /\ (lower t = "none"%string -> diagram slide = None)
    /\ (is_empty (strip m) = true -> diagram slide = None)
    /\ (lower t <> "none"%string -> is_empty (strip m) = false ->
        exists spec,
          diagram slide = Some spec
          /\ diagram_type spec = lower t
          /\ (~ In (lower t) recognized -> mermaid spec = stripped m)).
Proof.
  intros Hparse Ht Hm.
  unfold build_slide. rewrite Hparse. cbn [bind]. rewrite Ht, Hm.
  cbn [value_lower bind normalize_mermaid_value].
  destruct (String.eqb_spec (lower t) "none") as [En|En]; cbn [negb bind].
  - eexists. split; [reflexivity|]. cbn [title notes bullets diagram].
    repeat apply conj; auto; try (unfold get_default; now intros ->).
    intros; contradiction.
  - eexists. split; [reflexivity|]. cbn [title notes bullets diagram].
    repeat apply conj; try (unfold get_default; now intros ->).
    + intro Hnone. unfold get_or in Ht. rewrite Hnone in Ht.
      injection Ht as <-. exfalso. apply En. reflexivity.
    + intros; contradiction.
    + intro Hblank. unfold normalize_mermaid. rewrite Hblank.
      now rewrite orb_true_r.
    + intros _ Hblank. rewrite (normalize_mermaid_some _ _ Hblank).
      rewrite lower_idem. eexists. split; [reflexivity|].
      split; [reflexivity|]. intro Hun. cbn [mermaid].
      now apply with_directive_unrecognized.
Qed.

Lemma build_slide_fields_witness :
  exists slide,
    build_slide (quoted "{'diagram_type': 'Pie', 'mermaid': ' pie title Pets '}")
                "some words" "lecture" [] [] = Return slide
    /\ title slide = JStr ""
    /\ bullets slide = JArr []
    /\ diagram slide = Some (mkDiagram "pie" "pie title Pets").
Proof.
  destruct (build_slide_fields
              (quoted "{'diagram_type': 'Pie', 'mermaid': ' pie title Pets '}")
              "some words" "lecture" [] []
              [("diagram_type", JStr "Pie");
               ("mermaid", JStr " pie title Pets ")]
              "Pie" " pie title Pets ")
    as (slide & Hrun & Htitle & _ & Hbullets & _ & _ & _ & Hdiag);
    [vm_compute; reflexivity | reflexivity | reflexivity |].
  exists slide. split; [exact Hrun|].
  split; [apply Htitle; reflexivity|].
  split; [apply Hbullets; reflexivity|].
  destruct Hdiag as (spec & -> & Hty & Htext);
    [vm_compute; discriminate | reflexivity |].
  destruct spec as [ty tx]. simpl in Hty, Htext. subst ty.
  rewrite Htext; [reflexivity|].
  vm_compute. intuition discriminate.
Defined.



Lemma process_chunks_outcomes
      (llm : LLM) (cfg : Config) (vid : string)
      (segs : list CaptionSegment) (frames : list FrameSample) (total : nat)
      (chunks : list string) :
  forall idx slides trace,
    process_chunks llm cfg vid segs frames total idx chunks slides trace
    = ('(os, trace') <- chunk_outcomes llm cfg vid segs frames total idx
                                       chunks trace ;;
       Return (slides ++ emitted os, trace')).
Proof.
  induction chunks as [|chunk rest IH]; intros idx slides trace; simpl.
  - now rewrite app_nil_r.
  - destruct (process_chunk llm cfg vid segs frames total idx chunk trace)
      as [[o tr]|e]; simpl; [|reflexivity].
    rewrite IH.
    destruct (chunk_outcomes llm cfg vid segs frames total (S idx) rest tr)
      as [[os' tr']|e]; simpl; [|reflexivity].
    destruct o as [sl|]; simpl; [|reflexivity].
    now rewrite <- app_assoc.
Qed.






(** The run of the repository's integration test: one chunk, the mock, one
    caption at 0 and one frame at 0 give one slide with the mock's title. *)
Example process_video_file_integration :
  process_video_file llm_mock default_config "dummy"
                     [mkCaption 0 "This is a test"]
                     [mkFrame (mkPath "f_0001.jpg") 0]
                     ["This is a test transcript chunk."%string]
  = Return ([mkSlide (JStr "Test Slide") (JArr [JStr "Point 1"]) (JStr "")
                     None 0 "dummy" (Some (mkPath "f_0001.jpg"))],
            ["qwen2.5-coder:7b"%string]).
Proof. vm_compute. reflexivity. Qed.

(** The end-to-end scenario of the specification: one chunk, a first call
    that returns a valid object of type none, one caption at 0, no frame. *)
Example process_video_file_end_to_end :
  process_video_file llm_mock default_config "dummy"
                     [mkCaption 0 "This is a test"] []
                     ["This is a test transcript chunk."%string]
  = Return ([mkSlide (JStr "Test Slide") (JArr [JStr "Point 1"]) (JStr "")
                     None 0 "dummy" None],
            ["qwen2.5-coder:7b"%string]).
Proof. vm_compute. reflexivity. Qed.

End AssemblerFacts.

(* ================================================================== *)
(** * Further properties *)

(* ------------------------------------------------------------------ *)
(** ** Texts over all code points *)

Section UnicodeFacts.
Import Spec.
Local Open Scope list_scope.

Lemma wide_split_go_nospace (v : Unicode.text) :
  Forall (fun c => Unicode.is_space c = false) v ->
  forall w s, Unicode.split_go w (v ++ s) = Unicode.split_go (w ++ v) s.
Proof.
  induction 1 as [|c v Hc _ IH]; intros w s.
  - now rewrite app_nil_r.
  - cbn [app Unicode.split_go]. rewrite Hc, IH, <- app_assoc. reflexivity.
Qed.

Lemma wide_flush_word (w : Unicode.text) :
  Forall (fun c => Unicode.is_space c = false) w ->
  Forall wide_word (Unicode.flush w).
Proof.
  intro Hw. destruct w as [|c w]; constructor; [|constructor].
  split; [discriminate | exact Hw].
Qed.

Lemma wide_split_go_word (s : Unicode.text) :
  forall w, Forall (fun c => Unicode.is_space c = false) w ->
            Forall wide_word (Unicode.split_go w s).
Proof.
  induction s as [|c s IH]; cbn [Unicode.split_go]; intros w Hw.
  - now apply wide_flush_word.
  - destruct (Unicode.is_space c) eqn:Ec.
    + apply Forall_app. split; [now apply wide_flush_word|].
      apply IH. constructor.
    + apply IH. apply Forall_app. split; [exact Hw|]. now constructor.
Qed.

Lemma wide_split_word (s : Unicode.text) :
  Forall wide_word (Unicode.split s).
Proof. apply wide_split_go_word. constructor. Qed.

Lemma wide_split_join (g : list Unicode.text) :
  Forall wide_word g -> Unicode.split (Unicode.join g) = g.
Proof.
  induction g as [|w g IH]; intro Hg; [reflexivity|].
  inversion Hg as [|? ? [Hne Hns] Hg']; subst.
  specialize (IH Hg'). destruct g as [|w' g].
  - cbn [Unicode.join]. unfold Unicode.split.
    rewrite <- (app_nil_r w) at 1.
    rewrite (wide_split_go_nospace w Hns). cbn [app Unicode.split_go].
    destruct w; [congruence | reflexivity].
  - change (Unicode.join (w :: w' :: g))
      with (w ++ 32%N :: Unicode.join (w' :: g)).
    unfold Unicode.split. rewrite (wide_split_go_nospace w Hns).
    cbn [app Unicode.split_go].
    change (Unicode.is_space 32) with true. cbn iota.
    destruct w as [|c w]; [congruence|].
    cbn [Unicode.flush app]. f_equal. exact IH.
Qed.

(** The characters of the words of a text are characters of the text. *)
Lemma wide_split_go_in (s : Unicode.text) :
  forall w0 w c,
    In w (Unicode.split_go w0 s) -> In c w -> In c w0 \/ In c s.
Proof.
  induction s as [|d s IH]; cbn [Unicode.split_go]; intros w0 w c Hw Hc.
  - destruct w0; [contradiction|]. destruct Hw as [<-|[]]. now left.
  - destruct (Unicode.is_space d).
    + apply in_app_or in Hw. destruct Hw as [Hw|Hw].
      * destruct w0; [contradiction|]. destruct Hw as [<-|[]]. now left.
      * destruct (IH _ _ _ Hw Hc) as [[]|H]. right. now right.
    + destruct (IH _ _ _ Hw Hc) as [H|H]; [|right; now right].
      apply in_app_or in H. destruct H as [H|[<-|[]]]; [now left|].
      right. now left.
Qed.

Lemma wide_join_in (ws : list Unicode.text) (c : N) :
  In c (Unicode.join ws) -> c = 32%N \/ exists w, In w ws /\ In c w.
Proof.
  induction ws as [|w ws IH]; [contradiction|].
  destruct ws as [|w' ws].
  - cbn [Unicode.join]. intro H. right. exists w. split; [now left | exact H].
  - change (Unicode.join (w :: w' :: ws))
      with (w ++ 32%N :: Unicode.join (w' :: ws)).
    intro H. apply in_app_or in H. destruct H as [H|[H|H]].
    + right. exists w. split; [now left | exact H].
    + left. now symmetry.
    + destruct (IH H) as [E|(x & Hx & Hc)]; [now left|].
      right. exists x. split; [now right | exact Hc].
Qed.

Lemma wide_join_split_in (s : Unicode.text) (c : N) :
  In c (Unicode.join (Unicode.split s)) -> c = 32%N \/ In c s.
Proof.
  intro H. destruct (wide_join_in _ _ H) as [E|(w & Hw & Hc)]; [now left|].
  destruct (wide_split_go_in _ _ _ _ Hw Hc) as [[]|Hs]. now right.
Qed.

Lemma replace_in (old new : N) (s : Unicode.text) (c : N) :
  In c (Unicode.replace old new s) -> c = new \/ (In c s /\ c <> old).
Proof.
  unfold Unicode.replace. intro H. apply in_map_iff in H.
  destruct H as (x & Hx & Hin).
  destruct (N.eqb_spec x old) as [E|E]; [left; now symmetry|].
  right. subst c. now split.
Qed.

Lemma replace_absent (old new : N) (s : Unicode.text) :
  ~ In old s -> Unicode.replace old new s = s.
Proof.
  unfold Unicode.replace. induction s as [|c s IH]; intro H; [reflexivity|].
  cbn [map]. destruct (N.eqb_spec c old) as [E|E].
  - exfalso. apply H. left. exact E.
  - f_equal. apply IH. intro Hin. apply H. now right.
Qed.

(** After the three replacements no typographic quote is left. *)
Lemma straightened_plain (s : Unicode.text) (c : N) :
  In c (straightened s) -> ~ typographic c.
Proof.
  unfold straightened. intros H T.
  apply replace_in in H. destruct H as [E|[H Hrd]].
  { subst c. destruct T as [T|[T|T]]; discriminate T. }
  apply replace_in in H. destruct H as [E|[H Hld]].
  { subst c. destruct T as [T|[T|T]]; discriminate T. }
  apply replace_in in H. destruct H as [E|[H Hrs]].
  { subst c. destruct T as [T|[T|T]]; discriminate T. }
  destruct T as [T|[T|T]]; contradiction.
Qed.

Lemma straightened_id (s : Unicode.text) :
  (forall c, In c s -> ~ typographic c) -> straightened s = s.
Proof.
  intro H. unfold straightened.
  assert (E1 : Unicode.replace Unicode.rsquo Unicode.apostrophe s = s).
  { apply replace_absent. intro Hin. apply (H _ Hin). now left. }
  rewrite E1.
  assert (E2 : Unicode.replace Unicode.ldquo Unicode.quote s = s).
  { apply replace_absent. intro Hin. apply (H _ Hin). right. now left. }
  rewrite E2.
  apply replace_absent. intro Hin. apply (H _ Hin). right. now right.
Qed.

Lemma clean_text_plain (s : Unicode.text) (c : N) :
  In c (Unicode.clean_text s) -> ~ typographic c.
Proof.
  unfold Unicode.clean_text. fold (straightened s). intro H.
  destruct (wide_join_split_in _ _ H) as [E|Hin].
  - subst c. intros [T|[T|T]]; discriminate T.
  - eapply straightened_plain. exact Hin.
Qed.

(** The two models of a text agree on the alphabet 0..255. *)
Lemma is_space_of_ascii (c : ascii) :
  Unicode.is_space (N_of_ascii c) = PyStr.is_space c.
Proof.
  destruct c as [[] [] [] [] [] [] [] []]; vm_compute; reflexivity.
Qed.

Lemma of_string_app (a b : string) :
  Unicode.of_string (a ++ b)
  = Unicode.of_string a ++ Unicode.of_string b.
Proof.
  unfold Unicode.of_string.
  induction a as [|c a IH]; [reflexivity|].
  cbn [String.append list_ascii_of_string map app]. now rewrite IH.
Qed.

Lemma flush_of_string (w : string) :
  Unicode.flush (Unicode.of_string w) = map Unicode.of_string (PyStr.flush w).
Proof. destruct w; reflexivity. Qed.

Lemma split_go_of_string (s : string) :
  forall w,
    Unicode.split_go (Unicode.of_string w) (Unicode.of_string s)
    = map Unicode.of_string (PyStr.split_go w s).
Proof.
  induction s as [|c s IH]; intro w.
  - apply flush_of_string.
  - change (Unicode.of_string (String c s))
      with (N_of_ascii c :: Unicode.of_string s).
    cbn [Unicode.split_go PyStr.split_go]. rewrite is_space_of_ascii.
    destruct (PyStr.is_space c).
    + rewrite map_app, <- flush_of_string. f_equal. apply (IH EmptyString).
    + rewrite <- IH, of_string_app. reflexivity.
Qed.

Lemma join_of_string (ws : list string) :
  Unicode.join (map Unicode.of_string ws) = Unicode.of_string (PyStr.join ws).
Proof.
  induction ws as [|w ws IH]; [reflexivity|].
  destruct ws as [|w' ws]; [reflexivity|].
  change (PyStr.join (w :: w' :: ws))
    with (w ++ String " " (PyStr.join (w' :: ws)))%string.
  change (Unicode.join (map Unicode.of_string (w :: w' :: ws)))
    with (Unicode.of_string w
          ++ 32%N :: Unicode.join (map Unicode.of_string (w' :: ws))).
  rewrite IH, of_string_app. reflexivity.
Qed.

Lemma of_string_plain (s : string) (c : N) :
  In c (Unicode.of_string s) -> ~ typographic c.
Proof.
  unfold Unicode.of_string. intro H. apply in_map_iff in H.
  destruct H as (a & <- & _). pose proof (N_ascii_bounded a) as Hb.
  unfold typographic, Unicode.rsquo, Unicode.ldquo, Unicode.rdquo.
  intros [T|[T|T]]; rewrite T in Hb; discriminate Hb.
Qed.

Lemma to_string_of_string (s : string) :
  Unicode.to_string (Unicode.of_string s) = s.
Proof.
  unfold Unicode.to_string, Unicode.of_string. rewrite map_map.
  rewrite (map_ext _ (fun a => a)) by apply ascii_N_embedding.
  rewrite map_id. apply string_of_list_ascii_of_string.
Qed.

(** On a text of the alphabet 0..255 the replacements change nothing:
    cleaning is joining the words by single spaces. *)
Lemma clean_text_words (s : string) :
  Utils.clean_text s = PyStr.join (PyStr.split s).
Proof.
  unfold Utils.clean_text, Unicode.clean_text.
  fold (straightened (Unicode.of_string s)).
  rewrite straightened_id by apply of_string_plain.
  unfold Unicode.split, PyStr.split.
  change (Unicode.split_go [] (Unicode.of_string s))
    with (Unicode.split_go (Unicode.of_string EmptyString)
                           (Unicode.of_string s)).
  rewrite split_go_of_string, join_of_string.
  apply to_string_of_string.
Qed.

End UnicodeFacts.

(* ------------------------------------------------------------------ *)
(** ** Chunker and text cleaning *)

Section ChunkerMore.
Import PyStr Chunker Utils Spec.
Local Open Scope list_scope.

(** The groups of words behind the chunks, with the bound on their size. *)
Lemma chunk_loop_groups_bounded (words : list string) (target : Z)
      (Ht : 1 <= target) :
  forall fuel i acc,
    (i <= List.length words)%nat -> (List.length words - i <= fuel)%nat ->
    exists gs,
      chunk_loop fuel words target (Z.of_nat i, acc)
      = Some (acc ++ map join gs)
      /\ List.concat gs = skipn i words
      /\ Forall (fun g => (1 <= List.length g <= Z.to_nat target)%nat) gs
      /\ Forall (fun g => List.length g = Z.to_nat target) (removelast gs).
Proof.
  set (n := List.length words). set (t := Z.to_nat target).
  induction fuel as [|f IH]; intros i acc Hi Hf.
  - exists []. cbn [chunk_loop]. rewrite chunk_step_done by (fold n; lia).
    simpl. rewrite app_nil_r. repeat split; auto.
    symmetry. apply skipn_all2. fold n. lia.
  - destruct (Nat.eq_dec i n) as [->|Hne].
    + exists []. cbn [chunk_loop]. rewrite chunk_step_done by (fold n; lia).
      simpl. rewrite app_nil_r. repeat split; auto.
      symmetry. apply skipn_all2. fold n. lia.
    + cbn [chunk_loop]. rewrite chunk_step_pos by (fold n; lia).
      fold n t. set (g := firstn t (skipn i words)).
      destruct (IH (Nat.min n (i + t)) (acc ++ [join g]))
        as (gs & Hrun & Hcat & Hsz & Hlen); [lia | subst t; lia |].
      assert (Hskip : skipn (Nat.min n (i + t)) words
                      = skipn t (skipn i words)).
      { rewrite skipn_skipn.
        destruct (Nat.le_gt_cases (i + t) n).
        - rewrite Nat.min_r by lia. f_equal. lia.
        - rewrite Nat.min_l by lia.
          rewrite !skipn_all2; auto; fold n; lia. }
      assert (Hg : (1 <= List.length g <= t)%nat).
      { subst g. rewrite length_firstn, length_skipn. fold n. subst t. lia. }
      exists (g :: gs). repeat apply conj.
      * rewrite Hrun, <- app_assoc. reflexivity.
      * simpl. rewrite Hcat, Hskip. apply firstn_skipn.
      * constructor; auto.
      * destruct gs as [|g' gs']; [constructor|].
        change (removelast (g :: g' :: gs'))
          with (g :: removelast (g' :: gs')).
        constructor; auto.
        assert (Hlt : (i + t <= n)%nat).
        { destruct (Nat.le_gt_cases (i + t) n) as [|Hgt]; auto.
          exfalso. rewrite Nat.min_l in Hcat by lia.
          rewrite skipn_all2 in Hcat by (fold n; lia).
          inversion Hsz as [|? ? Hg' _]; subst.
          simpl in Hcat. apply app_eq_nil in Hcat.
          destruct Hcat as [E _]. rewrite E in Hg'. simpl in Hg'. lia. }
        subst g. rewrite length_firstn, length_skipn. fold n. lia.
Qed.

(** The groups of a text, for every amount of fuel that covers its words. *)
Lemma chunk_text_by_words_groups (text : string) (target : Z) :
  1 <= target ->
  exists gs,
    (forall fuel, (List.length (split text) <= fuel)%nat ->
                  chunk_text_by_words fuel text target = Some (map join gs))
    /\ List.concat gs = split text
    /\ Forall (fun g => (1 <= List.length g <= Z.to_nat target)%nat) gs
    /\ Forall (fun g => List.length g = Z.to_nat target) (removelast gs).
Proof.
  intro Ht.
  destruct (chunk_loop_groups_bounded (split text) target Ht
              (List.length (split text)) 0 [])
    as (gs & Hrun & Hcat & Hsz & Hlen); [lia | lia |].
  exists gs. repeat apply conj; auto.
  intros fuel Hfuel. unfold chunk_text_by_words.
  eapply chunk_loop_more_fuel; [exact Hrun | exact Hfuel].
Qed.

Lemma join_cons (w : string) (ws : list string) :
  ws <> [] -> join (w :: ws) = (w ++ " " ++ join ws)%string.
Proof. destruct ws; [congruence | reflexivity]. Qed.

Lemma join_app (l1 l2 : list string) :
  l1 <> [] -> l2 <> [] ->
  join (l1 ++ l2) = (join l1 ++ " " ++ join l2)%string.
Proof.
  intros H1 H2. induction l1 as [|w l1 IH]; [congruence|].
  destruct l1 as [|w' l1].
  - simpl app. now rewrite join_cons.
  - change ((w :: w' :: l1) ++ l2) with (w :: ((w' :: l1) ++ l2)).
    rewrite join_cons by discriminate.
    rewrite IH by discriminate.
    rewrite (join_cons w (w' :: l1)) by discriminate.
    now rewrite !append_assoc.
Qed.

Lemma join_groups (gs : list (list string)) :
  Forall (fun g => (1 <= List.length g)%nat) gs ->
  join (map join gs) = join (List.concat gs).
Proof.
  induction 1 as [|g gs Hg Hgs IH]; [reflexivity|].
  destruct gs as [|g' gs].
  - simpl. now rewrite app_nil_r.
  - assert (Hne : g <> []) by (destruct g; [simpl in Hg; lia | discriminate]).
    assert (Hne' : List.concat (g' :: gs) <> []).
    { inversion Hgs as [|? ? Hg' _]; subst.
      destruct g'; [simpl in Hg'; lia | discriminate]. }
    change (map join (g :: g' :: gs)) with (join g :: map join (g' :: gs)).
    rewrite join_cons by discriminate. rewrite IH.
    change (List.concat (g :: g' :: gs)) with (g ++ List.concat (g' :: gs)).
    now rewrite join_app.
Qed.


(** X1: [clean_text], on every text of code points: cleaning a cleaned text
    changes nothing; no typographic quote is left in a cleaned text; and
    the words of a cleaned text are the words of the text in which the
    right single quote has become an apostrophe and the two double quotes a
    double quote. *)
Theorem clean_text_idempotent (s : Unicode.text) :
  Unicode.clean_text (Unicode.clean_text s) = Unicode.clean_text s
  /\ (forall c, In c (Unicode.clean_text s) -> ~ typographic c)
  /\ Unicode.split (Unicode.clean_text s) = Unicode.split (straightened s).
Proof.
  assert (H : Unicode.split (Unicode.clean_text s)
              = Unicode.split (straightened s)).
  { unfold Unicode.clean_text. fold (straightened s).
    apply wide_split_join, wide_split_word. }
  repeat apply conj.
  - unfold Unicode.clean_text at 1. fold (straightened (Unicode.clean_text s)).
    rewrite straightened_id by apply clean_text_plain.
    rewrite H. reflexivity.
  - apply clean_text_plain.
  - exact H.
Qed.

(** The test of the repository: typographic quotes become plain ones and
    the run of spaces a single space. *)
Example clean_text_test :
  Unicode.clean_text clean_text_test_input = clean_text_test_output.
Proof. vm_compute. reflexivity. Qed.

(** X2: for a positive target, the chunks of a cleaned transcript joined by
    single spaces are that cleaned transcript. *)
Theorem chunks_rejoin_to_clean_text (raw : string) (target : Z) :
  1 <= target ->
  exists chunks,
    (forall fuel, (List.length (split (clean_text raw)) <= fuel)%nat ->
                  chunk_text_by_words fuel (clean_text raw) target
                  = Some chunks)
    /\ join chunks = clean_text raw.
Proof.
  intro Ht.
  destruct (chunk_text_by_words_groups (clean_text raw) target Ht)
    as (gs & Hrun & Hcat & Hsz & _).
  exists (map join gs). split; [exact Hrun|].
  assert (H : split (clean_text raw) = split raw).
  { rewrite clean_text_words. apply split_join, split_proper. }
  rewrite H in Hcat. rewrite clean_text_words, <- Hcat.
  apply join_groups.
  eapply Forall_impl; [|exact Hsz]. simpl. intros g Hg. lia.
Qed.

Lemma chunks_rejoin_to_clean_text_witness :
  1 <= 2 /\
  exists chunks,
    (forall fuel,
        (List.length (split (clean_text "  one two   three ")) <= fuel)%nat ->
        chunk_text_by_words fuel (clean_text "  one two   three ") 2
        = Some chunks)
    /\ join chunks = "one two three"%string.
Proof.
  split; [lia|].
  apply (chunks_rejoin_to_clean_text "  one two   three " 2). lia.
Defined.

Lemma groups_count (t : nat) (gs : list (list string)) :
  (1 <= t)%nat ->
  Forall (fun g => (1 <= List.length g <= t)%nat) gs ->
  Forall (fun g => List.length g = t) (removelast gs) ->
  List.length gs = ((List.length (List.concat gs) + t - 1) / t)%nat.
Proof.
  intros Ht Hsz. induction Hsz as [|g gs Hg Hgs IH]; intro Hlen.
  - simpl. symmetry. apply Nat.div_small. lia.
  - destruct gs as [|g' gs].
    + simpl. rewrite app_nil_r.
      apply (Nat.div_unique _ t 1 (List.length g - 1)); lia.
    + change (removelast (g :: g' :: gs))
        with (g :: removelast (g' :: gs)) in Hlen.
      apply Forall_cons_iff in Hlen. destruct Hlen as [Hgt Hlen'].
      specialize (IH Hlen').
      change (List.concat (g :: g' :: gs))
        with (g ++ List.concat (g' :: gs)).
      rewrite length_app, Hgt.
      set (m := List.length (List.concat (g' :: gs))) in *.
      replace (t + m + t - 1)%nat with (1 * t + (m + t - 1))%nat by lia.
      rewrite Nat.div_add_l by lia.
      change (List.length (g :: g' :: gs)) with (S (List.length (g' :: gs))).
      rewrite IH. lia.
Qed.

(** X3: for a positive target [T] and a text of [n] words the chunker
    returns the ceiling of [n / T] chunks. *)
Theorem chunk_count (text : string) (target : Z) :
  1 <= target ->
  exists chunks,
    (forall fuel, (List.length (split text) <= fuel)%nat ->
                  chunk_text_by_words fuel text target = Some chunks)
    /\ Z.of_nat (List.length chunks)
       = (Z.of_nat (List.length (split text)) + target - 1) / target.
Proof.
  intro Ht.
  destruct (chunk_text_by_words_groups text target Ht)
    as (gs & Hrun & Hcat & Hsz & Hlen).
  exists (map join gs). split; [exact Hrun|].
  rewrite length_map, (groups_count (Z.to_nat target) gs) by (auto; lia).
  rewrite Hcat. rewrite Nat2Z.inj_div.
  f_equal; lia.
Qed.

Lemma chunk_count_witness :
  1 <= 2 /\
  exists chunks,
    (forall fuel, (List.length (split "one two three four five") <= fuel)%nat ->
                  chunk_text_by_words fuel "one two three four five" 2
                  = Some chunks)
    /\ Z.of_nat (List.length chunks) = 3.
Proof.
  split; [lia|].
  apply (chunk_count "one two three four five" 2). lia.
Defined.

(** X4: for a positive target every chunk, the last one included, holds at
    least one word and at most [target] words. *)
Theorem chunk_sizes_bounded (text : string) (target : Z) :
  1 <= target ->
  exists chunks,
    (forall fuel, (List.length (split text) <= fuel)%nat ->
                  chunk_text_by_words fuel text target = Some chunks)
    /\ Forall (fun c => 1 <= Z.of_nat (List.length (split c)) <= target)
              chunks.
Proof.
  intro Ht.
  destruct (chunk_text_by_words_groups text target Ht)
    as (gs & Hrun & Hcat & Hsz & _).
  exists (map join gs). split; [exact Hrun|].
  assert (Hprop : Forall (Forall proper_word) gs).
  { apply Forall_concat. rewrite Hcat. apply split_proper. }
  apply Forall_map. clear Hrun Hcat.
  induction Hsz as [|g gs Hg _ IH]; inversion Hprop; subst;
    constructor; auto.
  rewrite split_join by assumption. lia.
Qed.

Lemma chunk_sizes_bounded_witness :
  1 <= 2 /\
  exists chunks,
    (forall fuel, (List.length (split "one two three") <= fuel)%nat ->
                  chunk_text_by_words fuel "one two three" 2 = Some chunks)
    /\ Forall (fun c => 1 <= Z.of_nat (List.length (split c)) <= 2) chunks.
Proof.
  split; [lia|].
  apply (chunk_sizes_bounded "one two three" 2). lia.
Defined.

End ChunkerMore.

(* ------------------------------------------------------------------ *)
(** ** Timestamp aligner and frames *)

Section AlignerMore.
Import PyStr Aligner Utils Spec.
Local Open Scope list_scope.

Lemma scan_segments_in (fw : string) (segs : list CaptionSegment) (t : Q) :
  scan_segments fw segs = Some t -> In t (map start segs).
Proof.
  induction segs as [|seg segs IH]; simpl; [discriminate|].
  destruct (contains fw (lower (text seg))).
  - intros [= <-]. now left.
  - intro H. right. now apply IH.
Qed.

(** X5: the time returned for a chunk is the start of one of the captions
    given; without captions it is 0. *)
Theorem find_start_time_for_chunk_in_captions
        (chunk : string) (segs : list CaptionSegment) :
  (segs = [] -> find_start_time_for_chunk chunk segs = 0%Q)
  /\ (segs <> [] ->
      In (find_start_time_for_chunk chunk segs) (map start segs)).
Proof.
  split.
  - intros ->. reflexivity.
  - intro Hne. unfold find_start_time_for_chunk.
    destruct (scan_segments (first_words chunk) segs) as [t|] eqn:E.
    + now apply scan_segments_in in E.
    + destruct segs as [|seg0 segs]; [congruence | now left].
Qed.

Lemma find_start_time_for_chunk_in_captions_witness :
  captions_example <> []
  /\ In (find_start_time_for_chunk "bar" captions_example)
        (map start captions_example).
Proof.
  assert (H : captions_example <> []) by discriminate.
  split; [exact H|].
  apply (find_start_time_for_chunk_in_captions "bar" captions_example).
  exact H.
Defined.

Lemma lower_join (ws : list string) : lower (join ws) = join (map lower ws).
Proof.
  induction ws as [|w ws IH]; [reflexivity|].
  destruct ws as [|w' ws]; [reflexivity|].
  change (join (w :: w' :: ws)) with (w ++ String " " (join (w' :: ws)))%string.
  rewrite lower_append. simpl lower at 2. rewrite IH. reflexivity.
Qed.

(** X6: the time of a chunk depends on its first five words only, and not
    on their letter case nor on the white space between them. *)
Theorem find_start_time_for_chunk_first_five
        (chunk1 chunk2 : string) (segs : list CaptionSegment) :
  map lower (firstn 5 (split chunk1)) = map lower (firstn 5 (split chunk2)) ->
  find_start_time_for_chunk chunk1 segs = find_start_time_for_chunk chunk2 segs.
Proof.
  intro H. unfold find_start_time_for_chunk, first_words.
  now rewrite !lower_join, H.
Qed.

Lemma find_start_time_for_chunk_first_five_witness :
  map lower (firstn 5 (split "Foo  BAR"))
  = map lower (firstn 5 (split " foo bar "))
  /\ find_start_time_for_chunk "Foo  BAR" captions_example
     = find_start_time_for_chunk " foo bar " captions_example.
Proof.
  assert (H : map lower (firstn 5 (split "Foo  BAR"))
              = map lower (firstn 5 (split " foo bar "))) by reflexivity.
  split; [exact H|].
  apply (find_start_time_for_chunk_first_five _ _ captions_example H).
Defined.

Lemma frame_loop_in (target : Q) (frames : list FrameSample) :
  forall closest p,
    frame_loop target frames closest = Some p ->
    closest = Some p \/ exists f, In f frames /\ path f = p.
Proof.
  induction frames as [|f frames IH]; simpl; intros closest p H; [now left|].
  destruct (Qle_bool (time f) target); [|now left].
  apply IH in H. destruct H as [[= <-]|(g & Hin & Hp)].
  - right. exists f. auto.
  - right. exists g. auto.
Qed.

(** X7: frame selection gives no frame exactly when there is none to choose
    from, and otherwise the path of one of the frames given. *)
Theorem find_closest_frame_in_frames
        (target : Q) (frames : list FrameSample) :
  (find_closest_frame target frames = None <-> frames = [])
  /\ (forall p, find_closest_frame target frames = Some p ->
                exists f, In f frames /\ path f = p).
Proof.
  split; [split|].
  - destruct frames as [|f0 frames]; [reflexivity|].
    unfold find_closest_frame.
    destruct (frame_loop target (f0 :: frames) None); discriminate.
  - intros ->. reflexivity.
  - intros p H. destruct frames as [|f0 frames]; [discriminate|].
    unfold find_closest_frame in H.
    destruct (frame_loop target (f0 :: frames) None) as [q|] eqn:E.
    + injection H as <-. apply frame_loop_in in E.
      destruct E as [E|E]; [discriminate | exact E].
    + injection H as <-. exists f0. split; [now left | reflexivity].
Qed.

(** X8: whatever the order of the frames, the frame selected is the last of
    the leading run of frames at or before the target: the loop stops at the
    first later frame and never looks at the frames behind it. *)
Theorem find_closest_frame_leading_run
        (target : Q) (pre : list FrameSample) (f later : FrameSample)
        (post : list FrameSample) :
  Forall (at_or_before target) pre ->
  at_or_before target f ->
  ~ at_or_before target later ->
  find_closest_frame target (pre ++ f :: later :: post) = Some (path f).
Proof.
  intros Hpre Hf Hlater. unfold find_closest_frame.
  assert (E : forall closest,
             frame_loop target (pre ++ f :: later :: post) closest
             = Some (path f)).
  { clear -Hpre Hf Hlater.
    induction pre as [|g pre IH]; intro closest; simpl.
    - apply Qle_bool_iff in Hf. rewrite Hf.
      destruct (Qle_bool (time later) target) eqn:El; [|reflexivity].
      apply Qle_bool_iff in El. contradiction.
    - inversion Hpre as [|? ? Hg Hpre']; subst.
      apply Qle_bool_iff in Hg. rewrite Hg. now apply IH. }
  rewrite E. destruct pre; reflexivity.
Qed.

Lemma find_closest_frame_leading_run_witness :
  find_closest_frame 15
    ([mkFrame (mkPath "f_0001.jpg") 0] ++ mkFrame (mkPath "f_0002.jpg") 10
       :: mkFrame (mkPath "f_0003.jpg") 20
       :: [mkFrame (mkPath "f_0004.jpg") 12])
  = Some (mkPath "f_0002.jpg").
Proof.
  apply (find_closest_frame_leading_run 15
           [mkFrame (mkPath "f_0001.jpg") 0]
           (mkFrame (mkPath "f_0002.jpg") 10)
           (mkFrame (mkPath "f_0003.jpg") 20)
           [mkFrame (mkPath "f_0004.jpg") 12]).
  - repeat constructor. unfold at_or_before. simpl. discriminate.
  - unfold at_or_before. simpl. discriminate.
  - unfold at_or_before. simpl. intro H. now apply H.
Defined.

Lemma extract_frames_from_spec (files : list Path) (ts : list Q) :
  forall i,
    map path (extract_frames_from i files ts) = files
    /\ map time (extract_frames_from i files ts)
       = map (fun k => nth k ts 0%Q) (seq i (List.length files)).
Proof.
  induction files as [|f files IH]; intro i; simpl; [auto|].
  destruct (IH (S i)) as [Hp Ht]. rewrite Hp, Ht. split; [reflexivity|].
  f_equal. destruct (nth_error ts i) as [t|] eqn:E.
  - symmetry. now apply nth_error_nth.
  - apply nth_error_None in E. symmetry. now apply nth_overflow.
Qed.

Lemma sorted_times_firstn (ts : list Q) :
  Sorted Qle ts -> forall k, Sorted Qle (firstn k ts).
Proof.
  induction 1 as [|t ts Hs IH Hhd]; intro k.
  - rewrite firstn_nil. constructor.
  - destruct k as [|k]; simpl; [constructor|].
    constructor; [apply IH|].
    destruct Hhd as [|u ts' Hu]; [rewrite firstn_nil; constructor|].
    destruct k; simpl; constructor. exact Hu.
Qed.

Lemma sorted_frames_of_times (frames : list FrameSample) :
  Sorted Qle (map time frames) -> frames_sorted frames.
Proof.
  unfold frames_sorted.
  induction frames as [|f frames IH]; simpl; intro H; [constructor|].
  inversion H as [|? ? Hs Hhd]; subst. constructor; [now apply IH|].
  destruct frames as [|g frames]; constructor.
  inversion Hhd; subst. assumption.
Qed.

Lemma seq_nth_firstn (ts : list Q) (n : nat) :
  (n <= List.length ts)%nat ->
  map (fun k => nth k ts 0%Q) (seq 0 n) = firstn n ts.
Proof.
  revert n. induction ts as [|t ts IH]; intros n Hn.
  - simpl in Hn. replace n with 0%nat by lia. reflexivity.
  - destruct n as [|n]; [reflexivity|]. simpl in Hn.
    cbn [seq map firstn nth]. f_equal.
    rewrite <- seq_shift, map_map. apply IH. lia.
Qed.

(** X9: the frames built from the files and the times keep the files in
    order, one frame for each file.  When the times are in non-decreasing
    order and there is one for each file at least, the frames carry the
    first of these times and are in non-decreasing time order, as frame
    selection expects; a file for which no time is left gets the time 0. *)
Theorem extract_frames_pairs (files : list Path) (ts : list Q) :
  map path (extract_frames files ts) = files
  /\ ((List.length files <= List.length ts)%nat ->
      map time (extract_frames files ts) = firstn (List.length files) ts
      /\ (Sorted Qle ts -> frames_sorted (extract_frames files ts)))
  /\ (forall k f, (List.length ts <= k)%nat ->
                  nth_error (extract_frames files ts) k = Some f ->
                  time f = 0%Q).
Proof.
  unfold extract_frames.
  destruct (extract_frames_from_spec files ts 0) as [Hp Ht].
  split; [exact Hp | split].
  - intro Hlen. rewrite seq_nth_firstn in Ht by exact Hlen.
    split; [exact Ht|].
    intro Hs. apply sorted_frames_of_times. rewrite Ht.
    now apply sorted_times_firstn.
  - intros k f Hk Hf.
    assert (Hkn : (k < List.length files)%nat).
    { rewrite <- Hp at 1. rewrite length_map.
      apply nth_error_Some. congruence. }
    apply (map_nth_error time) in Hf. rewrite Ht in Hf.
    rewrite nth_error_map, nth_error_seq in Hf.
    destruct (Nat.ltb_spec k (List.length files)); [|lia].
    simpl in Hf. injection Hf as <-. now apply nth_overflow.
Qed.

Lemma extract_frames_pairs_witness :
  (List.length [mkPath "f_0001.jpg"; mkPath "f_0002.jpg"]
   <= List.length [1.5%Q; 4%Q; 9%Q])%nat
  /\ frames_sorted
       (extract_frames [mkPath "f_0001.jpg"; mkPath "f_0002.jpg"]
                       [1.5%Q; 4%Q; 9%Q]).
Proof.
  assert (H : (List.length [mkPath "f_0001.jpg"; mkPath "f_0002.jpg"]
               <= List.length [1.5%Q; 4%Q; 9%Q])%nat) by (simpl; lia).
  split; [exact H|].
  destruct (extract_frames_pairs [mkPath "f_0001.jpg"; mkPath "f_0002.jpg"]
                                 [1.5%Q; 4%Q; 9%Q]) as (_ & Hs & _).
  destruct (Hs H) as [_ Hsorted]. apply Hsorted.
  repeat constructor; simpl; discriminate.
Defined.

(** The default time breaks the order when files outnumber the times. *)
Example extract_frames_default_breaks_order :
  extract_frames [mkPath "f_0001.jpg"; mkPath "f_0002.jpg"] [5%Q]
  = [mkFrame (mkPath "f_0001.jpg") 5; mkFrame (mkPath "f_0002.jpg") 0].
Proof. reflexivity. Qed.

End AlignerMore.

(* ------------------------------------------------------------------ *)
(** ** Diagram normalizer, further *)

Section DiagramMore.
Import PyStr Diagrams Spec.
Local Open Scope list_scope.

Lemma with_directive_suffix (dt m : string) :
  exists pre, In pre directive_lines /\ with_directive dt m = (pre ++ m)%string.
Proof.
  unfold with_directive, directive_lines.
  destruct ((dt =? "mindmap")%string
            && negb (startswith (lower m) "mindmap")).
  { eexists. split; [right; left; reflexivity|].
    now rewrite !append_assoc. }
  destruct ((dt =? "flowchart")%string
            && negb (contains "flowchart" (lower m))).
  { eexists. split; [right; right; left; reflexivity|].
    now rewrite !append_assoc. }
  destruct ((dt =? "hierarchy")%string
            && negb (startswith (lower m) "graph")).
  { eexists. split; [right; right; right; left; reflexivity|].
    now rewrite !append_assoc. }
  destruct ((dt =? "timeline")%string
            && negb (contains "timeline" (lower m))).
  { eexists. split; [right; right; left; reflexivity|].
    now rewrite !append_assoc. }
  exists ""%string. split; [now left | reflexivity].
Qed.

Lemma with_directive_recognized_nonempty (dt m : string) :
  In dt recognized -> with_directive dt m <> ""%string.
Proof.
  unfold recognized. simpl.
  intros [<-|[<-|[<-|[<-|[]]]]]; unfold with_directive; simpl String.eqb;
    cbn [andb].
  - destruct (startswith (lower m) "mindmap") eqn:E; simpl; [|discriminate].
    destruct m; [discriminate E | discriminate].
  - destruct (contains "flowchart" (lower m)) eqn:E; simpl; [|discriminate].
    destruct m; [discriminate E | discriminate].
  - destruct (startswith (lower m) "graph") eqn:E; simpl; [|discriminate].
    destruct m; [discriminate E | discriminate].
  - destruct (contains "timeline" (lower m)) eqn:E; simpl; [|discriminate].
    destruct m; [discriminate E | discriminate].
Qed.

(** X10: the normalizer never drops or rewrites diagram text: what it
    returns is the stripped text, with at most one of three directive lines
    put before it; the type returned is the given one in lower case, so the
    letter case of the type does not matter; and for the four diagram kinds
    the text returned is never empty. *)
Theorem normalize_mermaid_keeps_text (dt text : string) (spec : DiagramSpec) :
  normalize_mermaid dt text = Some spec ->
  diagram_type spec = lower dt
  /\ (exists pre, In pre directive_lines
                  /\ mermaid spec = (pre ++ stripped text)%string)
  /\ normalize_mermaid (lower dt) text = Some spec
  /\ (In (lower dt) recognized -> mermaid spec <> ""%string).
Proof.
  unfold normalize_mermaid.
  destruct (is_empty text || is_empty (strip text)); [discriminate|].
  rewrite lower_idem. intros [= <-]. cbn [diagram_type mermaid].
  repeat apply conj.
  - reflexivity.
  - apply with_directive_suffix.
  - reflexivity.
  - apply with_directive_recognized_nonempty.
Qed.

Lemma normalize_mermaid_keeps_text_witness :
  exists spec,
    normalize_mermaid "MindMap" " ```A --> B``` " = Some spec
    /\ diagram_type spec = "mindmap"%string
    /\ mermaid spec <> ""%string.
Proof.
  eexists. split; [reflexivity|].
  destruct (normalize_mermaid_keeps_text "MindMap" " ```A --> B``` " _ eq_refl)
    as (Hty & _ & _ & Hne).
  split; [exact Hty|]. apply Hne. vm_compute. auto.
Defined.

(** A text made of backticks only is not blank, so a diagram is returned
    for it; for a type outside the four kinds its text is empty. *)
Example normalize_mermaid_backticks_only :
  normalize_mermaid "pie" "```" = Some (mkDiagram "pie" "").
Proof. reflexivity. Qed.

End DiagramMore.

(* ------------------------------------------------------------------ *)
(** ** Response extractor, further *)

Section ExtractorMore.
Import PyStr Json Extractor Spec.
Local Open Scope list_scope.

Lemma parse_members_object (f : nat) :
  forall s acc v r,
    parse_members f s acc = Some (v, r) -> exists d, v = JObj d.
Proof.
  induction f as [|f IH]; intros s acc v r H; [discriminate|].
  cbn [parse_members] in H.
  destruct (scan_string s) as [[key r0]|]; [|discriminate].
  destruct (head_is ":" (skip_ws r0)) as [r1|]; [|discriminate].
  destruct (parse_value f (skip_ws r1)) as [[v' r2]|]; [|discriminate].
  destruct (head_is "}" (skip_ws r2)) as [r3|].
  - injection H as <- _. eauto.
  - destruct (head_is "," (skip_ws r2)) as [r3|]; [|discriminate].
    destruct (head_is dq (skip_ws r3)) as [r4|]; [|discriminate].
    eapply IH. exact H.
Qed.

(** A text that begins with an opening brace decodes to an object or not
    at all. *)
Lemma json_loads_brace (r : string) (v : value) :
  json_loads (String "{" r) = Return v -> exists d, v = JObj d.
Proof.
  unfold json_loads.
  change (skip_ws (String "{" r)) with (String "{" r).
  destruct (parse_value _ (String "{" r)) as [[v' rest]|] eqn:E;
    [|discriminate].
  destruct (is_empty (skip_ws rest)); [|discriminate].
  intros [= <-].
  destruct (2 * String.length (String "{" r) + 2)%nat as [|f];
    [discriminate|].
  cbn [parse_value] in E.
  change (Ascii.eqb "{" dq) with false in E.
  change (Ascii.eqb "{" "{") with true in E. cbn iota in E.
  destruct (head_is "}" (skip_ws r)) as [r1|].
  - injection E as <- _. eauto.
  - destruct (head_is dq (skip_ws r)) as [r1|]; [|discriminate].
    eapply parse_members_object. exact E.
Qed.

Lemma substring_at_find (c : ascii) (s : string) :
  forall k n, find_char c s = k -> 0 <= k ->
              exists r, String.substring (Z.to_nat k) (S n) s = String c r.
Proof.
  induction s as [|d s IH]; simpl; intros k n Hk Hpos; [lia|].
  destruct (Ascii.eqb_spec c d) as [->|Hne].
  - subst k. simpl. eauto.
  - destruct (Z.ltb_spec (find_char c s) 0); [lia|].
    destruct (IH (find_char c s) n eq_refl) as [r Hr]; [lia|].
    exists r. subst k.
    replace (Z.to_nat (find_char c s + 1)) with (S (Z.to_nat (find_char c s)))
      by lia.
    exact Hr.
Qed.

Lemma find_char_range (c : ascii) (s : string) : -1 <= find_char c s.
Proof.
  induction s as [|d s IH]; simpl; [lia|].
  destruct (Ascii.eqb c d); [lia|].
  destruct (find_char c s <? 0); lia.
Qed.

Lemma remove_trailing_commas_brace (r : string) :
  remove_trailing_commas (String "{" r)
  = String "{" (remove_trailing_commas r).
Proof. reflexivity. Qed.

(** X11: whatever the text, what the extractor returns is [None] or an
    object: never a list, a number, a string or a constant.  The callers can
    call [get] on the result as soon as it is not [None]. *)
Theorem safe_parse_json_returns_object (s : string) (v : value) :
  safe_parse_json s = Return (Some v) -> exists d, v = JObj d.
Proof.
  unfold safe_parse_json.
  destruct (is_empty s); [discriminate|].
  set (s' := after_fences s).
  destruct (Z.eqb_spec (find_char "{" s') (-1)) as [|Hstart];
    [discriminate|].
  destruct (Z.eqb_spec (rfind_char "}" s') (-1)) as [|Hend];
    [discriminate|].
  destruct (Z.leb_spec (rfind_char "}" s') (find_char "{" s')) as [|Hlt];
    [discriminate|].
  cbn [orb].
  pose proof (find_char_range "{" s') as Hpos.
  unfold slice.
  replace (Z.to_nat (rfind_char "}" s' + 1 - find_char "{" s'))
    with (S (Z.to_nat (rfind_char "}" s' - find_char "{" s'))) by lia.
  destruct (substring_at_find "{" s' _
              (Z.to_nat (rfind_char "}" s' - find_char "{" s')) eq_refl)
    as [r ->]; [lia|].
  destruct (json_loads (String "{" r)) as [v1|e] eqn:E1; cbn [bind try_except].
  - intros [= <-]. eapply json_loads_brace. exact E1.
  - rewrite remove_trailing_commas_brace.
    destruct (json_loads (String "{" (remove_trailing_commas r)))
      as [v2|e'] eqn:E2; cbn [bind try_except]; [|discriminate].
    intros [= <-]. eapply json_loads_brace. exact E2.
Qed.

Lemma safe_parse_json_returns_object_witness :
  safe_parse_json (quoted "{'a':[1,2,],}")
  = Return (Some (JObj [("a", JArr [JInt 1; JInt 2])]))
  /\ exists d, JObj [("a", JArr [JInt 1; JInt 2])] = JObj d.
Proof.
  assert (H : safe_parse_json (quoted "{'a':[1,2,],}")
              = Return (Some (JObj [("a", JArr [JInt 1; JInt 2])])))
    by (vm_compute; reflexivity).
  split; [exact H|].
  exact (safe_parse_json_returns_object _ _ H).
Defined.


Lemma find_char_app (c : ascii) (pre x : string) :
  ~ occurs c pre ->
  find_char c (pre ++ String c x) = Z.of_nat (String.length pre).
Proof.
  unfold occurs. induction pre as [|d pre IH]; simpl; intro H.
  - now rewrite Ascii.eqb_refl.
  - destruct (Ascii.eqb_spec c d) as [->|Hne]; [exfalso; auto|].
    rewrite IH by tauto.
    destruct (Z.ltb_spec (Z.of_nat (String.length pre)) 0); lia.
Qed.

Lemma rfind_char_app (c : ascii) (a post : string) :
  ~ occurs c post ->
  rfind_char c (a ++ String c post) = Z.of_nat (String.length a).
Proof.
  intro H. induction a as [|d a IH]; simpl.
  - rewrite (rfind_char_absent _ _ H). simpl. now rewrite Ascii.eqb_refl.
  - rewrite IH.
    destruct (Z.leb_spec 0 (Z.of_nat (String.length a))); lia.
Qed.

Lemma substring_prefix (x post : string) :
  String.substring 0 (String.length x) (x ++ post) = x.
Proof.
  induction x as [|c x IH]; simpl.
  - destruct post; reflexivity.
  - now rewrite IH.
Qed.

Lemma substring_skip (pre x : string) (n : nat) :
  String.substring (String.length pre) n (pre ++ x) = String.substring 0 n x.
Proof. induction pre as [|c pre IH]; simpl; [reflexivity | exact IH]. Qed.

Lemma is_empty_app_cons (pre : string) (c : ascii) (x : string) :
  is_empty (pre ++ String c x) = false.
Proof. destruct pre; reflexivity. Qed.

(** The extraction of the candidate and its decoding, once the handling of
    fences has left a text in which an object [{mid}] stands between a part
    without opening brace and a part without closing brace. *)
Lemma extract_between_braces (pre mid post : string) (v : value) :
  ~ occurs "{" pre -> ~ occurs "}" post ->
  json_loads (String "{" (mid ++ String "}" EmptyString)) = Return v ->
  let s := (pre ++ String "{" (mid ++ String "}" post))%string in
  (let start := find_char "{" s in
   let end_ := rfind_char "}" s in
   if (start =? -1) || (end_ =? -1) || (end_ <=? start) then Return None
   else
     let candidate := slice s start (end_ + 1) in
     try_except
       (v <- json_loads candidate ;; Return (Some v))
       (fun _ =>
          try_except
            (let cleaned := remove_trailing_commas candidate in
             v <- json_loads cleaned ;; Return (Some v))
            (fun _ => Return None)))
  = Return (Some v).
Proof.
  intros Hpre Hpost Hload s. cbv zeta.
  assert (Hstart : find_char "{" s = Z.of_nat (String.length pre)).
  { unfold s. now apply find_char_app. }
  assert (Hend : rfind_char "}" s
                 = Z.of_nat (String.length pre + 1 + String.length mid)).
  { unfold s.
    replace (pre ++ String "{" (mid ++ String "}" post))%string
      with ((pre ++ String "{" mid) ++ String "}" post)%string
      by (rewrite append_assoc; reflexivity).
    rewrite rfind_char_app by exact Hpost.
    rewrite length_append. simpl. f_equal. lia. }
  rewrite Hstart, Hend.
  destruct (Z.eqb_spec (Z.of_nat (String.length pre)) (-1)); [lia|].
  destruct (Z.eqb_spec
              (Z.of_nat (String.length pre + 1 + String.length mid)) (-1));
    [lia|].
  destruct (Z.leb_spec
              (Z.of_nat (String.length pre + 1 + String.length mid))
              (Z.of_nat (String.length pre))); [lia|].
  cbn [orb].
  assert (Hcand : slice s (Z.of_nat (String.length pre))
                        (Z.of_nat (String.length pre + 1 + String.length mid)
                         + 1)
                  = String "{" (mid ++ String "}" EmptyString)).
  { unfold slice, s. rewrite Nat2Z.id.
    replace (Z.to_nat
               (Z.of_nat (String.length pre + 1 + String.length mid) + 1
                - Z.of_nat (String.length pre)))
      with (String.length (String "{" (mid ++ String "}" EmptyString)))
      by (simpl; rewrite length_append; simpl; lia).
    rewrite substring_skip.
    replace (String "{" (mid ++ String "}" post))
      with (String "{" (mid ++ String "}" EmptyString) ++ post)%string
      by (simpl; rewrite append_assoc; reflexivity).
    apply substring_prefix. }
  rewrite Hcand, Hload. reflexivity.
Qed.

Lemma contains_false_after_fences (s : string) :
  contains fence s = false -> after_fences s = s.
Proof. intro H. unfold after_fences. now rewrite H. Qed.

(** X12: an object between prose is found.  When the text holds no code
    fence, no opening brace before the object and no closing brace after
    it, the extractor returns what the object decodes to. *)
Theorem safe_parse_json_in_prose (pre mid post : string) (v : value) :
  contains fence (pre ++ String "{" (mid ++ String "}" post)) = false ->
  ~ occurs "{" pre -> ~ occurs "}" post ->
  json_loads (String "{" (mid ++ String "}" EmptyString)) = Return v ->
  safe_parse_json (pre ++ String "{" (mid ++ String "}" post))
  = Return (Some v).
Proof.
  intros Hfence Hpre Hpost Hload. unfold safe_parse_json.
  rewrite is_empty_app_cons.
  rewrite (contains_false_after_fences _ Hfence).
  exact (extract_between_braces pre mid post v Hpre Hpost Hload).
Qed.

Lemma safe_parse_json_in_prose_witness :
  safe_parse_json
    ("Here you are: " ++ String "{" (quoted "'title': 'T'" ++ String "}" " Done."))
  = Return (Some (JObj [("title", JStr "T")])).
Proof.
  apply (safe_parse_json_in_prose "Here you are: " (quoted "'title': 'T'")
                                  " Done.").
  - vm_compute. reflexivity.
  - vm_compute. intuition discriminate.
  - vm_compute. intuition discriminate.
  - vm_compute. reflexivity.
Defined.


Lemma lstrip_blank_app (ws x : string) :
  blank ws -> lstrip is_space (ws ++ x) = lstrip is_space x.
Proof.
  unfold blank. induction ws as [|c ws IH]; simpl; intro H; [reflexivity|].
  destruct (is_space c); [now apply IH | discriminate].
Qed.

Lemma drop_prefix_cons (a b : ascii) (p s : string) :
  drop_prefix (String a p) (String b s)
  = if Ascii.eqb a b then drop_prefix p s else None.
Proof. reflexivity. Qed.

Lemma prefix_cons (a b : ascii) (p s : string) :
  String.prefix (String a p) (String b s)
  = if ascii_dec a b then String.prefix p s else false.
Proof. reflexivity. Qed.

Lemma drop_json_blank (ws r : string) :
  blank ws -> drop_prefix "json" (ws ++ String "{" r) = None.
Proof.
  unfold blank. destruct ws as [|c ws]; intro H; [reflexivity|].
  cbn [append].
  change (drop_prefix "json" (String c (ws ++ String "{" r)))
    with (if Ascii.eqb "j" c
          then drop_prefix "son" (ws ++ String "{" r) else None).
  destruct (Ascii.eqb_spec "j" c) as [<-|]; [|reflexivity].
  discriminate H.
Qed.

Lemma fence_search_skip (pre rest : string) :
  ~ occurs "`" pre -> fence_search (pre ++ rest) = fence_search rest.
Proof.
  unfold occurs. induction pre as [|c pre IH]; intro H; [reflexivity|].
  cbn [append fence_search]. unfold fence at 1. rewrite drop_prefix_cons.
  simpl in H.
  destruct (Ascii.eqb_spec "`" c) as [<-|Hne]; [exfalso; auto|].
  apply IH. tauto.
Qed.

Lemma no_fence_ahead (x y : string) :
  ~ occurs "`" x ->
  String.prefix fence (lstrip is_space (x ++ String "}" y)) = false.
Proof.
  unfold occurs. induction x as [|c x IH]; intro H; [reflexivity|].
  cbn [append lstrip]. simpl in H.
  destruct (is_space c); [apply IH; tauto|].
  unfold fence. rewrite prefix_cons.
  destruct (ascii_dec "`" c) as [<-|]; [exfalso; auto | reflexivity].
Qed.

Lemma fence_body_object (mid ws2 post : string) :
  ~ occurs "`" mid -> blank ws2 ->
  fence_body (mid ++ String "}" (ws2 ++ fence ++ post))
  = Some (mid ++ String "}" EmptyString)%string.
Proof.
  intros Hmid Hws. induction mid as [|c mid IH].
  - cbn [append fence_body]. rewrite Ascii.eqb_refl.
    rewrite lstrip_blank_app by exact Hws.
    unfold fence. simpl. destruct post; reflexivity.
  - cbn [append fence_body].
    assert (Hmid' : ~ occurs "`" mid).
    { unfold occurs in *. simpl in Hmid. tauto. }
    rewrite (no_fence_ahead mid _ Hmid'), andb_false_r.
    now rewrite (IH Hmid').
Qed.

Lemma contains_app (n a b : string) : contains n (a ++ n ++ b) = true.
Proof.
  induction a as [|c a IH].
  - apply prefix_contains. simpl.
    induction n as [|x n IHn]; simpl; [destruct b; reflexivity|].
    destruct (ascii_dec x x); [exact IHn | congruence].
  - change (contains n (String c a ++ n ++ b))
      with (String.prefix n (String c (a ++ n ++ b))
            || contains n (a ++ n ++ b)).
    rewrite IH. apply orb_true_r.
Qed.

(** X13: an object in a code fence is found.  When a fence, with or
    without the word json, opens before the object and another closes after
    it, with nothing but white space between them and the object, and no
    backtick stands before the first fence nor inside the object, the
    extractor returns what the object decodes to, whatever follows. *)
Theorem safe_parse_json_fenced
        (pre tag ws1 mid ws2 post : string) (v : value) :
  tag = ""%string \/ tag = "json"%string ->
  ~ occurs "`" pre -> ~ occurs "`" mid ->
  blank ws1 -> blank ws2 ->
  json_loads (String "{" (mid ++ String "}" EmptyString)) = Return v ->
  safe_parse_json
    (pre ++ fence ++ tag ++ ws1
         ++ String "{" (mid ++ String "}" (ws2 ++ fence ++ post)))
  = Return (Some v).
Proof.
  intros Htag Hpre Hmid Hws1 Hws2 Hload.
  set (body := (ws1 ++ String "{" (mid ++ String "}" (ws2 ++ fence ++ post)))
               %string).
  assert (Hsearch : fence_search (pre ++ fence ++ tag ++ body)
                    = Some (String "{" (mid ++ String "}" EmptyString))).
  { rewrite fence_search_skip by exact Hpre.
    assert (Hhere : fence_match_here (tag ++ body)
                    = Some (String "{" (mid ++ String "}" EmptyString))).
    { unfold fence_match_here.
      assert (Hs1 : match drop_prefix "json" (tag ++ body) with
                    | Some r => r | None => (tag ++ body)%string end = body).
      { destruct Htag as [-> | ->].
        - cbn [append]. unfold body. now rewrite drop_json_blank.
        - reflexivity. }
      rewrite Hs1. unfold body. rewrite lstrip_blank_app by exact Hws1.
      cbn [lstrip]. change (is_space "{") with false. cbn iota.
      now rewrite fence_body_object. }
    unfold fence at 1. cbn [append fence_search drop_prefix].
    unfold fence. cbn [drop_prefix]. rewrite !Ascii.eqb_refl.
    now rewrite Hhere. }
  unfold safe_parse_json.
  assert (Hne : is_empty (pre ++ fence ++ tag ++ body) = false)
    by (unfold fence; apply is_empty_app_cons).
  fold body. rewrite Hne.
  unfold after_fences.
  rewrite (contains_app fence pre (tag ++ body)), Hsearch.
  apply (extract_between_braces "" mid "" v); auto.
Qed.

Lemma safe_parse_json_fenced_witness :
  safe_parse_json
    ("Sure {as asked}: " ++ fence ++ "json" ++ Diagrams.nl
       ++ String "{" (quoted "'title': 'T'"
                        ++ String "}" (Diagrams.nl ++ fence ++ " bye }")))
  = Return (Some (JObj [("title", JStr "T")])).
Proof.
  apply (safe_parse_json_fenced "Sure {as asked}: " "json" Diagrams.nl
                                (quoted "'title': 'T'") Diagrams.nl " bye }").
  - now right.
  - vm_compute. intuition discriminate.
  - vm_compute. intuition discriminate.
  - reflexivity.
  - reflexivity.
  - vm_compute. reflexivity.
Defined.

End ExtractorMore.

(* ------------------------------------------------------------------ *)
(** ** Generation client, further *)

Section ClientMore.
Import PyStr Json Extractor Diagrams Aligner Pipeline Spec.
Local Open Scope nat_scope.
Local Open Scope list_scope.

(** The nested loops are the flat search through the plan. *)
Lemma try_models_first_success_eq (llm : LLM) (prompt : string)
      (models : list string) :
  forall trace,
    try_models llm models prompt trace
    = first_success llm prompt (attempt_plan models) trace.
Proof.
  induction models as [|m models IH]; intro trace; [reflexivity|].
  cbn [try_models attempt_plan flat_map app attempts first_success].
  fold (attempt_plan models).
  assert (Hsecond :
            ('(llm_out, trace') <- attempts llm 1 prompt m (trace ++ [m]) ;;
             if str_truthy llm_out then Return (llm_out, trace')
             else try_models llm models prompt trace')
            = first_success llm prompt (m :: attempt_plan models)
                            (trace ++ [m])).
  { cbn [attempts first_success].
    destruct (llm prompt m (List.length (trace ++ [m]))) as [[text|]|e];
      cbn [bind]; [| apply IH | reflexivity].
    destruct (is_empty text) eqn:Ee; cbn [negb bind]; [apply IH|].
    destruct (safe_parse_json text) as [p|e]; cbn [bind]; [|reflexivity].
    destruct (parsed_truthy p); cbn [bind str_truthy]; [|apply IH].
    now rewrite Ee. }
  destruct (llm prompt m (List.length trace)) as [[text|]|e];
    cbn [bind]; [| exact Hsecond | reflexivity].
  destruct (is_empty text) eqn:Ee; cbn [negb bind]; [exact Hsecond|].
  destruct (safe_parse_json text) as [p|e]; cbn [bind]; [|reflexivity].
  destruct (parsed_truthy p); cbn [bind str_truthy]; [|exact Hsecond].
  now rewrite Ee.
Qed.

Lemma first_success_fail_step (llm : LLM) (prompt m : string)
      (rest trace : list string) :
  attempt_fails (llm prompt m (List.length trace)) ->
  first_success llm prompt (m :: rest) trace
  = first_success llm prompt rest (trace ++ [m]).
Proof.
  intros [H|(text & H & [He|(p & Hp & Ht)])]; cbn [first_success];
    rewrite H; cbn [bind]; [reflexivity | now rewrite He |].
  destruct (is_empty text); cbn [negb]; [reflexivity|].
  rewrite Hp. cbn [bind]. now rewrite Ht.
Qed.

Lemma first_success_at (llm : LLM) (prompt : string) (plan : list string) :
  forall k trace text,
    (k < List.length plan)%nat ->
    (forall j, (j < k)%nat ->
               attempt_fails (llm prompt (nth j plan ""%string)
                                  (List.length trace + j))) ->
    attempt_succeeds (llm prompt (nth k plan ""%string)
                          (List.length trace + k)) text ->
    first_success llm prompt plan trace
    = Return (Some text, trace ++ firstn (S k) plan).
Proof.
  induction plan as [|m plan IH]; intros k trace text Hk Hfail Hok;
    [simpl in Hk; lia|].
  destruct k as [|k].
  - destruct Hok as (Hr & Hne & p & Hp & Ht). cbn [nth] in Hr.
    rewrite Nat.add_0_r in Hr. cbn [first_success firstn].
    rewrite Hr. cbn [bind]. rewrite Hne. cbn [negb]. rewrite Hp.
    cbn [bind]. now rewrite Ht.
  - rewrite first_success_fail_step.
    + rewrite (IH k (trace ++ [m]) text).
      * cbn [firstn]. rewrite <- app_assoc. reflexivity.
      * simpl in Hk. lia.
      * intros j Hj. specialize (Hfail (S j) ltac:(lia)).
        cbn [nth] in Hfail. rewrite length_app. simpl.
        now replace (List.length trace + 1 + j)%nat
          with (List.length trace + S j)%nat by lia.
      * cbn [nth] in Hok. rewrite length_app. simpl.
        now replace (List.length trace + 1 + k)%nat
          with (List.length trace + S k)%nat by lia.
    + specialize (Hfail 0%nat ltac:(lia)). cbn [nth] in Hfail.
      now rewrite Nat.add_0_r in Hfail.
Qed.

Lemma first_success_none (llm : LLM) (prompt : string) (plan : list string) :
  forall trace,
    (forall j, (j < List.length plan)%nat ->
               attempt_fails (llm prompt (nth j plan ""%string)
                                  (List.length trace + j))) ->
    first_success llm prompt plan trace = Return (None, trace ++ plan).
Proof.
  induction plan as [|m plan IH]; intros trace Hfail.
  - simpl. now rewrite app_nil_r.
  - rewrite first_success_fail_step.
    + rewrite IH.
      * rewrite <- app_assoc. reflexivity.
      * intros j Hj. specialize (Hfail (S j) ltac:(simpl; lia)).
        cbn [nth] in Hfail. rewrite length_app. simpl.
        now replace (List.length trace + 1 + j)%nat
          with (List.length trace + S j)%nat by lia.
    + specialize (Hfail 0%nat ltac:(simpl; lia)). cbn [nth] in Hfail.
      now rewrite Nat.add_0_r in Hfail.
Qed.

(** What any run of the flat search leaves. *)
Lemma first_success_calls (llm : LLM) (prompt : string) (plan : list string) :
  forall trace out trace',
    first_success llm prompt plan trace = Return (out, trace') ->
    exists calls rest,
      trace' = trace ++ calls
      /\ plan = calls ++ rest
      /\ (out = None -> rest = [])
      /\ (forall text, out = Some text ->
            exists model before,
              calls = before ++ [model]
              /\ attempt_succeeds
                   (llm prompt model (List.length (trace ++ before))) text).
Proof.
  induction plan as [|m plan IH]; intros trace out trace' H.
  - injection H as <- <-. exists [], []. rewrite app_nil_r.
    repeat split; auto. intros text Ht. discriminate.
  - cbn [first_success] in H.
    assert (Hrec : first_success llm prompt plan (trace ++ [m])
                   = Return (out, trace') ->
                   exists calls rest,
                     trace' = trace ++ calls
                     /\ m :: plan = calls ++ rest
                     /\ (out = None -> rest = [])
                     /\ (forall text, out = Some text ->
                           exists model before,
                             calls = before ++ [model]
                             /\ attempt_succeeds
                                  (llm prompt model
                                       (List.length (trace ++ before)))
                                  text)).
    { intro Hr. destruct (IH _ _ _ Hr) as (calls & rest & Ht & Hp & Hn & Hs).
      exists (m :: calls), rest. repeat split; auto.
      - rewrite Ht, <- app_assoc. reflexivity.
      - simpl. now rewrite Hp.
      - intros text Hout. destruct (Hs text Hout) as (model & before & Hc & Hok).
        exists model, (m :: before). split; [simpl; now rewrite Hc|].
        now rewrite <- app_assoc in Hok. }
    destruct (llm prompt m (List.length trace)) as [[text|]|e] eqn:El;
      cbn [bind] in H; [| now apply Hrec | discriminate].
    destruct (is_empty text) eqn:Ee; cbn [negb] in H; [now apply Hrec|].
    destruct (safe_parse_json text) as [p|e] eqn:Ep; cbn [bind] in H;
      [|discriminate].
    destruct (parsed_truthy p) eqn:Et; [|now apply Hrec].
    injection H as <- <-. exists [m], plan. repeat split; auto.
    + discriminate.
    + intros text' [= <-]. exists m, []. split; [reflexivity|].
      rewrite app_nil_r. unfold attempt_succeeds. eauto.
Qed.


Lemma attempt_plan_length (models : list string) :
  List.length (attempt_plan models) = 2 * List.length models.
Proof.
  induction models as [|m models IH]; [reflexivity|].
  cbn [attempt_plan flat_map app List.length].
  fold (attempt_plan models). rewrite IH. lia.
Qed.

(** X14: the two nested loops stop at the first attempt that succeeds.  If
    the attempt number [k] of the plan (every model twice, in order) is the
    first whose text is not empty and decodes to something true, the client
    returns that text after exactly [k + 1] calls, made in the order of the
    plan. *)
Theorem try_models_stops_at_first_success
        (llm : LLM) (models : list string) (prompt : string)
        (trace : list string) (k : nat) (text : string) :
  k < List.length (attempt_plan models) ->
  (forall j, j < k ->
             attempt_fails (llm prompt (nth j (attempt_plan models) ""%string)
                                (List.length trace + j))) ->
  attempt_succeeds (llm prompt (nth k (attempt_plan models) ""%string)
                        (List.length trace + k)) text ->
  try_models llm models prompt trace
  = Return (Some text, trace ++ firstn (S k) (attempt_plan models)).
Proof.
  intros Hk Hfail Hok. rewrite try_models_first_success_eq.
  now apply first_success_at.
Qed.

Lemma try_models_stops_at_first_success_witness :
  try_models llm_third_call
             ["qwen2.5-coder:7b"; "llama3:latest"; "mistral"]%string
             "prompt" []
  = Return (Some (quoted "{'title': 'T'}"),
            ["qwen2.5-coder:7b"; "qwen2.5-coder:7b"; "llama3:latest"]%string).
Proof.
  apply (try_models_stops_at_first_success
           llm_third_call
           ["qwen2.5-coder:7b"; "llama3:latest"; "mistral"]%string
           "prompt" [] 2 (quoted "{'title': 'T'}")).
  - simpl. lia.
  - intros j Hj. left.
    destruct j as [|[|j]]; [reflexivity | reflexivity | lia].
  - split; [reflexivity|]. split; [reflexivity|].
    eexists. split; [vm_compute; reflexivity | reflexivity].
Defined.

(** X15: when every planned attempt fails the client gives up with no
    text, after having called every model exactly twice, in order. *)
Theorem try_models_exhausted
        (llm : LLM) (models : list string) (prompt : string)
        (trace : list string) :
  (forall j, j < List.length (attempt_plan models) ->
             attempt_fails (llm prompt (nth j (attempt_plan models) ""%string)
                                (List.length trace + j))) ->
  try_models llm models prompt trace
  = Return (None, trace ++ attempt_plan models).
Proof.
  intro Hfail. rewrite try_models_first_success_eq.
  now apply first_success_none.
Qed.

Lemma try_models_exhausted_witness :
  try_models llm_down ["qwen2.5-coder:7b"; "llama3:latest"]%string "prompt" []
  = Return (None, ["qwen2.5-coder:7b"; "qwen2.5-coder:7b";
                   "llama3:latest"; "llama3:latest"]%string).
Proof.
  apply (try_models_exhausted
           llm_down ["qwen2.5-coder:7b"; "llama3:latest"]%string "prompt" []).
  intros j Hj. left. reflexivity.
Defined.

(** X16: whenever the client returns, the calls it made are a beginning of
    the plan, so at most two for each model; without a text the whole plan
    was used up; a text returned is the answer of the last call made, is
    not empty and decodes to something true. *)
Theorem try_models_calls
        (llm : LLM) (models : list string) (prompt : string)
        (trace : list string) (out : option string) (trace' : list string) :
  try_models llm models prompt trace = Return (out, trace') ->
  exists calls rest,
    trace' = trace ++ calls
    /\ attempt_plan models = calls ++ rest
    /\ List.length calls <= 2 * List.length models
    /\ (out = None -> calls = attempt_plan models)
    /\ (forall text, out = Some text ->
          exists model before,
            calls = before ++ [model]
            /\ attempt_succeeds
                 (llm prompt model (List.length (trace ++ before))) text).
Proof.
  rewrite try_models_first_success_eq. intro H.
  destruct (first_success_calls _ _ _ _ _ _ H)
    as (calls & rest & Ht & Hp & Hn & Hs).
  exists calls, rest. repeat apply conj; auto.
  - rewrite <- attempt_plan_length, Hp, length_app. lia.
  - intro Ho. rewrite Hp, (Hn Ho). now rewrite app_nil_r.
Qed.

Lemma try_models_calls_witness :
  exists calls rest,
    ["qwen2.5-coder:7b"; "qwen2.5-coder:7b"; "llama3:latest"]%string
    = [] ++ calls
    /\ attempt_plan ["qwen2.5-coder:7b"; "llama3:latest"; "mistral"]%string
       = calls ++ rest
    /\ List.length calls <= 2 * 3.
Proof.
  destruct (try_models_calls
              llm_third_call
              ["qwen2.5-coder:7b"; "llama3:latest"; "mistral"]%string
              "prompt" [] (Some (quoted "{'title': 'T'}"))
              ["qwen2.5-coder:7b"; "qwen2.5-coder:7b"; "llama3:latest"]%string)
    as (calls & rest & Ht & Hp & Hl & _).
  - vm_compute. reflexivity.
  - exists calls, rest. auto.
Defined.

Lemma process_chunks_budget
      (llm : LLM) (cfg : Config) (vid : string)
      (segs : list CaptionSegment) (frames : list FrameSample) (total : nat)
      (chunks : list string) :
  forall idx slides trace deck trace',
    process_chunks llm cfg vid segs frames total idx chunks slides trace
    = Return (deck, trace') ->
    List.length trace'
    <= List.length trace
       + 2 * (1 + List.length (FALLBACK_MODELS cfg)) * List.length chunks.
Proof.
  induction chunks as [|chunk rest IH];
    intros idx slides trace deck trace' H.
  - injection H as _ <-. lia.
  - cbn [process_chunks] in H. unfold process_chunk in H.
    rewrite try_models_first_success_eq in H.
    destruct (first_success llm _ _ trace) as [[out tr]|e] eqn:E;
      cbn [bind] in H; [|discriminate].
    destruct (first_success_calls _ _ _ _ _ _ E)
      as (calls & rst & Ht & Hp & _).
    assert (Hc : List.length calls
                 <= 2 * (1 + List.length (FALLBACK_MODELS cfg))).
    { change (1 + List.length (FALLBACK_MODELS cfg))
        with (List.length (MODEL_NAME cfg :: FALLBACK_MODELS cfg)).
      rewrite <- attempt_plan_length, Hp, length_app. lia. }
    assert (Htr : List.length tr
                  <= List.length trace
                     + 2 * (1 + List.length (FALLBACK_MODELS cfg))).
    { rewrite Ht, length_app. lia. }
    assert (Hrest : forall sl,
               process_chunks llm cfg vid segs frames total (S idx) rest
                              sl tr = Return (deck, trace') ->
               List.length trace'
               <= List.length trace
                  + 2 * (1 + List.length (FALLBACK_MODELS cfg))
                    * List.length (chunk :: rest)).
    { intros sl Hr. apply IH in Hr. simpl List.length. nia. }
    destruct out as [text|]; [|now apply (Hrest slides)].
    destruct (is_empty text); cbn [negb] in H; [now apply (Hrest slides)|].
    destruct (build_slide text chunk vid segs frames) as [sl|e];
      cbn [bind] in H; [|discriminate].
    now apply (Hrest (slides ++ [sl])).
Qed.

(** X17: a deck costs at most two calls for each model and chunk. *)
Theorem process_video_file_call_budget
        (llm : LLM) (cfg : Config) (vid : string)
        (segs : list CaptionSegment) (frames : list FrameSample)
        (chunks : list string) (deck : list Slide) (trace : list string) :
  process_video_file llm cfg vid segs frames chunks = Return (deck, trace) ->
  List.length trace
  <= 2 * (1 + List.length (FALLBACK_MODELS cfg)) * List.length chunks.
Proof.
  unfold process_video_file. intro H.
  apply process_chunks_budget in H. simpl in H. exact H.
Qed.

Lemma process_video_file_call_budget_witness :
  List.length ["qwen2.5-coder:7b"; "qwen2.5-coder:7b";
               "llama3:latest"; "llama3:latest"]%string
  <= 2 * (1 + List.length (FALLBACK_MODELS default_config))
     * List.length ["some words"%string].
Proof.
  apply (process_video_file_call_budget
           llm_down default_config "lecture" [] [] ["some words"%string] []).
  vm_compute. reflexivity.
Defined.

End ClientMore.

(* ------------------------------------------------------------------ *)
(** ** Slide assembler, further *)

Section AssemblerMore.
Import PyStr Json Extractor Diagrams Aligner Pipeline Spec.
Local Open Scope nat_scope.
Local Open Scope list_scope.

Lemma get_or_str_or_truthy (k x : string) (d : list (string * value)) :
  (exists s, get_or k (JStr x) d = JStr s) \/ truthy (get_or k (JStr x) d) = true.
Proof.
  unfold get_or. destruct (dict_get k d) as [v|]; [|left; eauto].
  destruct (truthy v) eqn:E; [now right | left; eauto].
Qed.

(** X18: when a slide is built and when not.  On a decoded object the
    building of the slide succeeds when the diagram type (after its default)
    is a string and, unless that type is none, the diagram text (after its
    default) is a string too.  In every other case, such as a number or a
    list under [diagram_type], it raises [AttributeError]. *)
Theorem build_slide_raises_exactly
        (llm_out chunk vid : string) (segs : list CaptionSegment)
        (frames : list FrameSample) (d : list (string * value)) :
  safe_parse_json llm_out = Return (Some (JObj d)) ->
  (forall t, get_or "diagram_type" (JStr "none") d = JStr t ->
             lower t = "none"%string
             \/ (exists m, get_or "mermaid" (JStr "") d = JStr m) ->
             exists slide,
               build_slide llm_out chunk vid segs frames = Return slide)
  /\ ((forall t, get_or "diagram_type" (JStr "none") d <> JStr t) ->
      build_slide llm_out chunk vid segs frames = Raise AttributeError)
  /\ (forall t, get_or "diagram_type" (JStr "none") d = JStr t ->
                lower t <> "none"%string ->
                (forall m, get_or "mermaid" (JStr "") d <> JStr m) ->
                build_slide llm_out chunk vid segs frames
                = Raise AttributeError).
Proof.
  intro Hparse. unfold build_slide. rewrite Hparse. cbn [bind].
  repeat apply conj.
  - intros t Ht Hcase. rewrite Ht. cbn [value_lower bind].
    destruct (String.eqb_spec (lower t) "none") as [En|En]; cbn [negb bind].
    + eexists. reflexivity.
    + destruct Hcase as [Hc|[m Hm]]; [contradiction|].
      rewrite Hm. cbn [normalize_mermaid_value bind]. eexists. reflexivity.
  - intro Hns.
    destruct (get_or "diagram_type" (JStr "none") d) eqn:E;
      try reflexivity.
    exfalso. eapply Hns. reflexivity.
  - intros t Ht Hne Hnm. rewrite Ht. cbn [value_lower bind].
    destruct (String.eqb_spec (lower t) "none") as [En|En];
      [contradiction|]. cbn [negb].
    destruct (get_or_str_or_truthy "mermaid" "" d) as [[m Hm]|Htr];
      [exfalso; eapply Hnm; exact Hm|].
    destruct (get_or "mermaid" (JStr "") d) eqn:E;
      cbn [normalize_mermaid_value]; try rewrite Htr; try reflexivity.
    exfalso. eapply Hnm. reflexivity.
Qed.

Lemma build_slide_raises_exactly_witness :
  build_slide (quoted "{'title': 'T', 'diagram_type': 5}")
              "some words" "lecture" [] []
  = Raise AttributeError.
Proof.
  destruct (build_slide_raises_exactly
              (quoted "{'title': 'T', 'diagram_type': 5}")
              "some words" "lecture" [] []
              [("title", JStr "T"); ("diagram_type", JInt 5)])
    as (_ & H & _); [vm_compute; reflexivity|].
  apply H. intros t Ht. vm_compute in Ht. discriminate.
Defined.

Lemma chunk_outcomes_app
      (llm : LLM) (cfg : Config) (vid : string)
      (segs : list CaptionSegment) (frames : list FrameSample) (total : nat)
      (pre rest : list string) :
  forall idx trace,
    chunk_outcomes llm cfg vid segs frames total idx (pre ++ rest) trace
    = ('(os1, tr) <- chunk_outcomes llm cfg vid segs frames total idx pre
                                    trace ;;
       '(os2, tr') <- chunk_outcomes llm cfg vid segs frames total
                                     (idx + List.length pre) rest tr ;;
       Return (os1 ++ os2, tr')).
Proof.
  induction pre as [|chunk pre IH]; intros idx trace.
  - cbn [app chunk_outcomes bind List.length]. rewrite Nat.add_0_r.
    destruct (chunk_outcomes llm cfg vid segs frames total idx rest trace)
      as [[os tr]|e]; reflexivity.
  - cbn [app chunk_outcomes List.length].
    destruct (process_chunk llm cfg vid segs frames total idx chunk trace)
      as [[o tr]|e]; cbn [bind]; [|reflexivity].
    rewrite IH. replace (S idx + List.length pre) with
      (idx + S (List.length pre)) by lia.
    destruct (chunk_outcomes llm cfg vid segs frames total (S idx) pre tr)
      as [[os1 tr1]|e]; cbn [bind]; [|reflexivity].
    destruct (chunk_outcomes llm cfg vid segs frames total
                             (idx + S (List.length pre)) rest tr1)
      as [[os2 tr2]|e]; reflexivity.
Qed.

(** X19: an exception in the turn of one chunk is the end of the whole
    call: whatever slides the chunks before it gave, [process_video_file]
    raises that exception and returns no deck. *)
Theorem process_video_file_aborts
        (llm : LLM) (cfg : Config) (vid : string)
        (segs : list CaptionSegment) (frames : list FrameSample)
        (pre : list string) (chunk : string) (post : list string)
        (os : list (option Slide)) (tr : list string) (e : exn) :
  chunk_outcomes llm cfg vid segs frames
                 (List.length (pre ++ chunk :: post)) 1 pre []
  = Return (os, tr) ->
  process_chunk llm cfg vid segs frames
                (List.length (pre ++ chunk :: post))
                (1 + List.length pre) chunk tr
  = Raise e ->
  process_video_file llm cfg vid segs frames (pre ++ chunk :: post) = Raise e.
Proof.
  intros Hpre Hchunk. unfold process_video_file.
  rewrite process_chunks_outcomes, chunk_outcomes_app, Hpre.
  cbn [bind chunk_outcomes]. rewrite Hchunk. reflexivity.
Qed.

Lemma process_video_file_aborts_witness :
  process_video_file llm_second_bad default_config "lecture" [] []
                     (["chunk one"%string] ++ "chunk two"%string :: [])
  = Raise AttributeError.
Proof.
  eapply (process_video_file_aborts
            llm_second_bad default_config "lecture" [] []
            ["chunk one"%string] "chunk two" []).
  - vm_compute. reflexivity.
  - vm_compute. reflexivity.
Defined.


Lemma process_chunks_all_succeed
      (llm : LLM) (cfg : Config) (vid : string)
      (segs : list CaptionSegment) (frames : list FrameSample)
      (text : string) (p : option value) (total : nat) :
  (forall prompt n, llm prompt (MODEL_NAME cfg) n = Return (Some text)) ->
  is_empty text = false ->
  safe_parse_json text = Return p -> parsed_truthy p = true ->
  forall chunks idx slides trace,
    (forall chunk, In chunk chunks ->
                   exists slide,
                     build_slide text chunk vid segs frames = Return slide) ->
    exists deck,
      process_chunks llm cfg vid segs frames total idx chunks slides trace
      = Return (slides ++ deck,
                trace ++ repeat (MODEL_NAME cfg) (List.length chunks))
      /\ Forall2 (fun chunk slide =>
                    build_slide text chunk vid segs frames = Return slide)
                 chunks deck.
Proof.
  intros Hllm Hne Hp Ht.
  induction chunks as [|chunk rest IH]; intros idx slides trace Hbuild.
  - exists []. simpl. rewrite !app_nil_r. split; [reflexivity | constructor].
  - destruct (Hbuild chunk (or_introl eq_refl)) as [slide Hslide].
    destruct (IH (S idx) (slides ++ [slide]) (trace ++ [MODEL_NAME cfg]))
      as (deck & Hrun & Hall); [intros c Hc; apply Hbuild; now right|].
    exists (slide :: deck). split; [|now constructor].
    cbn [process_chunks]. unfold process_chunk.
    cbn [try_models attempts]. rewrite Hllm. cbn [bind].
    rewrite Hne. cbn [negb]. rewrite Hp. cbn [bind]. rewrite Ht.
    cbn [bind str_truthy]. rewrite Hne. cbn [negb bind].
    rewrite Hslide. cbn [bind]. rewrite ?Hne. cbn [negb bind].
    rewrite Hrun.
    cbn [List.length repeat]. rewrite <- !app_assoc. reflexivity.
Qed.

(** X23: the run without failures.  When the primary model answers every
    call with the same text, not empty and decoded to something true, and a
    slide can be built from it for every chunk, the deck has one slide for
    each chunk, in chunk order, each built from that text, and the primary
    model was called once for each chunk and no other model at all. *)
Theorem process_video_file_all_succeed
        (llm : LLM) (cfg : Config) (vid : string)
        (segs : list CaptionSegment) (frames : list FrameSample)
        (text : string) (p : option value) (chunks : list string) :
  (forall prompt n, llm prompt (MODEL_NAME cfg) n = Return (Some text)) ->
  is_empty text = false ->
  safe_parse_json text = Return p -> parsed_truthy p = true ->
  (forall chunk, In chunk chunks ->
                 exists slide,
                   build_slide text chunk vid segs frames = Return slide) ->
  exists deck,
    process_video_file llm cfg vid segs frames chunks
    = Return (deck, repeat (MODEL_NAME cfg) (List.length chunks))
    /\ List.length deck = List.length chunks
    /\ Forall2 (fun chunk slide =>
                  build_slide text chunk vid segs frames = Return slide)
               chunks deck.
Proof.
  intros Hllm Hne Hp Ht Hbuild.
  destruct (process_chunks_all_succeed llm cfg vid segs frames text p
              (List.length chunks) Hllm Hne Hp Ht chunks 1 [] [] Hbuild)
    as (deck & Hrun & Hall).
  exists deck. split; [exact Hrun|]. split; [|exact Hall].
  symmetry. eapply Forall2_length. exact Hall.
Qed.

Lemma process_video_file_all_succeed_witness :
  exists deck,
    process_video_file llm_mock default_config "dummy" [] []
                       ["one two"; "three four"; "five"]%string
    = Return (deck, repeat "qwen2.5-coder:7b"%string 3)
    /\ List.length deck = 3.
Proof.
  destruct (process_video_file_all_succeed
              llm_mock default_config "dummy" [] []
              (quoted
                 "{'title': 'Test Slide', 'bullets': ['Point 1'], 'diagram_type': 'none'}")
              (Some (JObj [("title", JStr "Test Slide");
                           ("bullets", JArr [JStr "Point 1"]);
                           ("diagram_type", JStr "none")]))
              ["one two"; "three four"; "five"]%string)
    as (deck & Hrun & Hlen & _).
  - reflexivity.
  - reflexivity.
  - vm_compute. reflexivity.
  - reflexivity.
  - intros chunk _. eexists. vm_compute. reflexivity.
  - exists deck. split; [exact Hrun | exact Hlen].
Defined.


Lemma process_chunks_real_trace
      (cfg : Config) (service : Service) (vid : string)
      (segs : list CaptionSegment) (frames : list FrameSample) (total : nat)
      (chunks : list string) :
  forall idx slides trace,
    process_chunks (call_local_llm cfg service) cfg vid segs frames total idx
                   chunks slides trace
    = Return (slides,
              trace ++ List.concat
                         (repeat (attempt_plan
                                    (MODEL_NAME cfg :: FALLBACK_MODELS cfg))
                                 (List.length chunks))).
Proof.
  induction chunks as [|chunk rest IH]; intros idx slides trace.
  - simpl. now rewrite app_nil_r.
  - cbn [process_chunks]. unfold process_chunk.
    rewrite try_models_real. cbn [bind]. rewrite IH.
    cbn [List.length repeat List.concat]. rewrite <- app_assoc. reflexivity.
Qed.

(** X24: with the module's own [call_local_llm] no slide is ever made.
    Whatever the service answers, [process_video_file] returns an empty
    deck, without raising, after it has called every model twice for every
    chunk. *)
Theorem process_video_file_never_generates
        (cfg : Config) (service : Service) (vid : string)
        (segs : list CaptionSegment) (frames : list FrameSample)
        (chunks : list string) :
  process_video_file (call_local_llm cfg service) cfg vid segs frames chunks
  = Return ([],
            List.concat
              (repeat (attempt_plan (MODEL_NAME cfg :: FALLBACK_MODELS cfg))
                      (List.length chunks))).
Proof.
  unfold process_video_file. now rewrite process_chunks_real_trace.
Qed.


Lemma build_slide_anchored
      (text chunk vid : string) (segs : list CaptionSegment)
      (frames : list FrameSample) (sl : Slide) :
  build_slide text chunk vid segs frames = Return sl ->
  anchored vid segs frames sl.
Proof.
  unfold build_slide.
  destruct (safe_parse_json text) as [[[]|]|e]; cbn [bind]; try discriminate.
  destruct (value_lower _) as [dt|e]; cbn [bind]; [|discriminate].
  destruct (if negb (dt =? "none")%string then _ else _) as [spec|e];
    cbn [bind]; [|discriminate].
  intros [= <-]. unfold anchored.
  cbn [video_id start_time screenshot]. repeat apply conj.
  - reflexivity.
  - intros ->. reflexivity.
  - intro Hne. unfold find_start_time_for_chunk.
    destruct (scan_segments (first_words chunk) segs) as [t|] eqn:E.
    + clear -E. induction segs as [|seg segs IH]; simpl in *; [discriminate|].
      destruct (contains (first_words chunk) (lower (text seg))).
      * injection E as <-. now left.
      * right. now apply IH.
    + destruct segs; [congruence | now left].
  - intros ->. reflexivity.
  - intro Hne. destruct frames as [|f0 frames]; [congruence|].
    unfold find_closest_frame.
    destruct (frame_loop _ (f0 :: frames) None) as [q|] eqn:E.
    + assert (G : forall fs c, frame_loop
                                 (find_start_time_for_chunk chunk segs) fs c
                               = Some q ->
                               c = Some q
                               \/ exists f, In f fs /\ path f = q).
      { clear. induction fs as [|f fs IH]; simpl; intros c H; [now left|].
        destruct (Qle_bool (time f) _); [|now left].
        apply IH in H. destruct H as [[= <-]|(g & Hin & Hp)];
          right; eauto. }
      apply G in E. destruct E as [E|(f & Hin & Hp)]; [discriminate|].
      exists f. split; [exact Hin | now rewrite Hp].
    + exists f0. split; [now left | reflexivity].
Qed.

Lemma process_chunks_anchored
      (llm : LLM) (cfg : Config) (vid : string)
      (segs : list CaptionSegment) (frames : list FrameSample) (total : nat)
      (chunks : list string) :
  forall idx slides trace deck trace',
    Forall (anchored vid segs frames) slides ->
    process_chunks llm cfg vid segs frames total idx chunks slides trace
    = Return (deck, trace') ->
    Forall (anchored vid segs frames) deck.
Proof.
  induction chunks as [|chunk rest IH];
    intros idx slides trace deck trace' Hs H.
  - injection H as <- _. exact Hs.
  - cbn [process_chunks] in H. unfold process_chunk in H.
    destruct (try_models llm _ _ trace) as [[out tr]|e]; cbn [bind] in H;
      [|discriminate].
    destruct out as [text|]; [|eapply IH; eassumption].
    destruct (is_empty text); cbn [negb] in H; [eapply IH; eassumption|].
    destruct (build_slide text chunk vid segs frames) as [sl|e] eqn:B;
      cbn [bind] in H; [|discriminate].
    eapply IH; [|exact H].
    apply Forall_app. split; [exact Hs|].
    constructor; [|constructor]. eapply build_slide_anchored. exact B.
Qed.

(** X25: every slide of a deck is anchored to the video it was made for:
    it carries the video id given, a start time that is the start of one of
    the captions (0.0 without captions) and a screenshot that is the path of
    one of the frames (none without frames). *)
Theorem process_video_file_slides_anchored
        (llm : LLM) (cfg : Config) (vid : string)
        (segs : list CaptionSegment) (frames : list FrameSample)
        (chunks : list string) (deck : list Slide) (trace : list string) :
  process_video_file llm cfg vid segs frames chunks = Return (deck, trace) ->
  Forall (anchored vid segs frames) deck.
Proof.
  unfold process_video_file. intro H.
  eapply process_chunks_anchored; [constructor | exact H].
Qed.

Lemma process_video_file_slides_anchored_witness :
  exists deck trace,
    process_video_file llm_mock default_config "dummy"
                       [mkCaption 0 "This is a test"]
                       [mkFrame (mkPath "f_0001.jpg") 0]
                       ["This is a test transcript chunk."%string]
    = Return (deck, trace)
    /\ Forall (anchored "dummy" [mkCaption 0 "This is a test"]
                        [mkFrame (mkPath "f_0001.jpg") 0]) deck.
Proof.
  eexists. eexists.
  assert (H : process_video_file llm_mock default_config "dummy"
                [mkCaption 0 "This is a test"]
                [mkFrame (mkPath "f_0001.jpg") 0]
                ["This is a test transcript chunk."%string]
              = Return (_, _)) by (vm_compute; reflexivity).
  split; [exact H|].
  exact (process_video_file_slides_anchored _ _ _ _ _ _ _ _ H).
Defined.

(** X26: a diagram type that is present but false in a boolean context
    (null, false, 0, an empty string, list or object) counts as none: the
    slide is built without diagram, and the diagram text is not looked at,
    so that a diagram text that is not a string does no harm then. *)
Theorem build_slide_falsy_type
        (llm_out chunk vid : string) (segs : list CaptionSegment)
        (frames : list FrameSample) (d : list (string * value)) (v : value) :
  safe_parse_json llm_out = Return (Some (JObj d)) ->
  dict_get "diagram_type" d = Some v ->
  truthy v = false ->
  exists slide,
    build_slide llm_out chunk vid segs frames = Return slide
    /\ diagram slide = None.
Proof.
  intros Hparse Hget Hfalse. unfold build_slide. rewrite Hparse.
  cbn [bind]. unfold get_or at 1. rewrite Hget, Hfalse.
  cbn [value_lower bind].
  change (lower "none" =? "none")%string with true. cbn [negb bind].
  eexists. split; reflexivity.
Qed.

Lemma build_slide_falsy_type_witness :
  exists slide,
    build_slide (quoted "{'title': 'T', 'diagram_type': null, 'mermaid': [1]}")
                "some words" "lecture" [] []
    = Return slide
    /\ diagram slide = None.
Proof.
  apply (build_slide_falsy_type
           (quoted "{'title': 'T', 'diagram_type': null, 'mermaid': [1]}")
           "some words" "lecture" [] []
           [("title", JStr "T"); ("diagram_type", JNull);
            ("mermaid", JArr [JInt 1])]
           JNull).
  - vm_compute. reflexivity.
  - reflexivity.
  - reflexivity.
Defined.

(** Zero among the numbers with a fraction or an exponent: a literal that
    rounds to zero is false, the least positive double and what rounds to
    it are true. *)
Example truthy_floats :
  truthy (JFloat "0.0") = false
  /\ truthy (JFloat "-0e5") = false
  /\ truthy (JFloat "1e-400") = false
  /\ truthy (JFloat "2e-324") = false
  /\ truthy (JFloat "3e-324") = true
  /\ truthy (JFloat "0.5") = true
  /\ truthy (JFloat "NaN") = true.
Proof. repeat split; vm_compute; reflexivity. Qed.

(** A diagram type that underflows to zero counts as none. *)
Example build_slide_underflowing_type :
  exists slide,
    build_slide (quoted "{'title': 'T', 'diagram_type': 1e-400}")
                "some words" "lecture" [] []
    = Return slide
    /\ diagram slide = None.
Proof. eexists. split; vm_compute; reflexivity. Qed.

End AssemblerMore.

(* ------------------------------------------------------------------ *)
(** ** Stripping, settings and the older call *)

Section CallMore.
Import PyStr Json Pipeline Utils Spec.
Local Open Scope nat_scope.
Local Open Scope list_scope.

Lemma rstrip_idem (p : ascii -> bool) (s : string) :
  rstrip p (rstrip p s) = rstrip p s.
Proof.
  induction s as [|c s IH]; [reflexivity|]. cbn [rstrip].
  destruct (is_empty (rstrip p s) && p c) eqn:E; [reflexivity|].
  cbn [rstrip]. rewrite IH, E. reflexivity.
Qed.

Lemma lstrip_clean_head (p : ascii -> bool) (s : string) :
  clean_head p (lstrip p s).
Proof.
  induction s as [|c s IH]; simpl; [exact I|].
  destruct (p c) eqn:E; [exact IH | exact E].
Qed.

Lemma rstrip_clean_head (p : ascii -> bool) (s : string) :
  clean_head p s -> clean_head p (rstrip p s).
Proof.
  destruct s as [|c s]; [auto|]. cbn [rstrip clean_head]. intro H.
  rewrite H, andb_false_r. exact H.
Qed.

Lemma lstrip_of_clean_head (p : ascii -> bool) (s : string) :
  clean_head p s -> lstrip p s = s.
Proof. destruct s as [|c s]; simpl; [auto|]. now intros ->. Qed.

Lemma strip_with_idem (p : ascii -> bool) (s : string) :
  strip_with p (strip_with p s) = strip_with p s.
Proof.
  unfold strip_with.
  rewrite (lstrip_of_clean_head p (rstrip p (lstrip p s))).
  - apply rstrip_idem.
  - apply rstrip_clean_head, lstrip_clean_head.
Qed.

Lemma split_on_length (sep : ascii) (s : string) :
  forall cur,
    List.length (split_on sep cur s)
    = S (count_occ ascii_dec (list_ascii_of_string s) sep).
Proof.
  induction s as [|c s IH]; intro cur; [reflexivity|].
  cbn [split_on list_ascii_of_string count_occ].
  destruct (Ascii.eqb_spec c sep) as [->|Hne].
  - destruct (ascii_dec sep sep); [|congruence].
    cbn [List.length]. now rewrite IH.
  - destruct (ascii_dec c sep); [congruence|]. apply IH.
Qed.

(** X20: the list of fallback models read from the setting is never
    empty: it has one name more than the setting has commas, and no name
    has white space around it.  An empty setting gives one empty name. *)
Theorem fallback_models_of_setting (val : string) :
  List.length (FALLBACK_MODELS_of val)
  = S (count_occ ascii_dec (list_ascii_of_string val) ","%char)
  /\ FALLBACK_MODELS_of val <> []
  /\ Forall (fun m => strip m = m) (FALLBACK_MODELS_of val)
  /\ FALLBACK_MODELS_of "" = [""%string].
Proof.
  unfold FALLBACK_MODELS_of. repeat apply conj.
  - rewrite length_map. apply split_on_length.
  - intro E. apply (f_equal (@List.length string)) in E.
    rewrite length_map, split_on_length in E. discriminate.
  - apply Forall_map, Forall_forall. intros m _. apply strip_with_idem.
  - reflexivity.
Qed.

(** The value documented as default and a list with spaces. *)
Example fallback_models_examples :
  FALLBACK_MODELS_of "llama3:latest" = ["llama3:latest"%string]
  /\ FALLBACK_MODELS_of "llama3:latest, mistral ,phi3"
     = ["llama3:latest"; "mistral"; "phi3"]%string.
Proof. split; reflexivity. Qed.

Lemma old_read_lines_skip (pre : list string) (bad : string)
      (post : list string) :
  skipped_line bad ->
  forall acc,
    PipelineLlmCall.read_lines (pre ++ bad :: post) acc
    = PipelineLlmCall.read_lines (pre ++ post) acc.
Proof.
  intro Hbad. induction pre as [|l pre IH]; intro acc.
  - cbn [app PipelineLlmCall.read_lines].
    destruct (is_empty bad) eqn:E; [reflexivity|].
    destruct Hbad as [Hb|[e Hb]]; [congruence|].
    unfold PipelineLlmCall.read_line. now rewrite Hb.
  - cbn [app PipelineLlmCall.read_lines].
    destruct (is_empty l); apply IH.
Qed.

Lemma old_read_lines_pieces (lines pieces : list string) :
  Forall2 response_line lines pieces ->
  forall acc,
    PipelineLlmCall.read_lines lines acc
    = (acc ++ String.concat "" pieces)%string.
Proof.
  induction 1 as [|line piece lines pieces (Hne & d & Hd & Hr) _ IH];
    intro acc.
  - simpl. now rewrite append_empty_r.
  - cbn [PipelineLlmCall.read_lines]. rewrite Hne.
    unfold PipelineLlmCall.read_line. rewrite Hd.
    cbn [has_response add_response]. rewrite Hr. rewrite IH.
    rewrite append_assoc. f_equal.
    destruct pieces; simpl; [now rewrite append_empty_r | reflexivity].
Qed.

(** X21: the older call puts the stream together.  Lines that are empty or
    do not decode are passed over wherever they stand; when every other line
    is an object with a string response, the text built is these responses
    one after the other, and the call returns that text stripped, or [None]
    when nothing but white space is left.  A failed request gives [None]. *)
Theorem pipeline_llm_call_assembles
        (service : Service) (prompt model : string) (n : nat) :
  (service model prompt n = None ->
   PipelineLlmCall.call_local_llm service prompt model n = Return None)
  /\ (forall pre bad post,
         skipped_line bad ->
         service model prompt n = Some (pre ++ bad :: post) ->
         PipelineLlmCall.call_local_llm service prompt model n
         = PipelineLlmCall.call_local_llm (fun _ _ _ => Some (pre ++ post))
                                          prompt model n)
  /\ (forall lines pieces,
         Forall2 response_line lines pieces ->
         service model prompt n = Some lines ->
         PipelineLlmCall.call_local_llm service prompt model n
         = Return (if is_empty (strip (String.concat "" pieces)) then None
                   else Some (strip (String.concat "" pieces)))).
Proof.
  unfold PipelineLlmCall.call_local_llm. repeat apply conj.
  - intros ->. reflexivity.
  - intros pre bad post Hbad ->. cbn [try_except].
    now rewrite old_read_lines_skip.
  - intros lines pieces Hl ->. cbn [try_except].
    now rewrite (old_read_lines_pieces lines pieces Hl).
Qed.

Lemma pipeline_llm_call_assembles_witness :
  PipelineLlmCall.call_local_llm (fun _ _ _ => Some stream_example)
                                 "prompt" "llama3" 0
  = Return (Some (quoted "{'title': 'T'}")).
Proof.
  destruct (pipeline_llm_call_assembles (fun _ _ _ => Some stream_example)
                                        "prompt" "llama3" 0)
    as (_ & Hskip & _).
  rewrite (Hskip [quoted "{'response': ' {\'title\':', 'done': false}"]
                 (quoted "{'response': ")
                 [quoted "{'response': ' \'T\'} ', 'done': true}"]).
  - destruct (pipeline_llm_call_assembles
                (fun _ _ _ =>
                   Some ([quoted "{'response': ' {\'title\':', 'done': false}"]
                           ++ [quoted "{'response': ' \'T\'} ', 'done': true}"]))
                "prompt" "llama3" 0) as (_ & _ & Hpieces).
    rewrite (Hpieces
               ([quoted "{'response': ' {\'title\':', 'done': false}"]
                  ++ [quoted "{'response': ' \'T\'} ', 'done': true}"])
               [quoted " {'title':"; quoted " 'T'} "]).
    + vm_compute. reflexivity.
    + repeat constructor; eexists; split; vm_compute; reflexivity.
    + reflexivity.
  - right. eexists. vm_compute. reflexivity.
  - reflexivity.
Defined.

(** X22: what the older call returns is never an empty text and never a
    text with white space around it: it is [None] or a stripped text that
    is not empty; and the call never raises. *)
Theorem pipeline_llm_call_result
        (service : Service) (prompt model : string) (n : nat) :
  PipelineLlmCall.call_local_llm service prompt model n = Return None
  \/ exists text,
      PipelineLlmCall.call_local_llm service prompt model n
      = Return (Some text)
      /\ is_empty text = false /\ strip text = text.
Proof.
  unfold PipelineLlmCall.call_local_llm.
  destruct (service model prompt n) as [lines|]; cbn [try_except];
    [|now left].
  destruct (is_empty (strip (PipelineLlmCall.read_lines lines ""))) eqn:E;
    [now left|].
  right. eexists. split; [reflexivity|]. split; [exact E|].
  apply strip_with_idem.
Qed.

End CallMore.
